(** * Express + MySQL resource server: authentication, ownership-scoped
      posts and the storage bootstrap

    A shallow embedding of the request authenticator
    ([src/middleware/auth.js]), the user and post routes
    ([routes/users.js], [routes/posts.js]), the seed data
    ([src/config/mockData.js]), the bootstrap initializer
    ([src/config/init.js]) and the start-up sequence of [server.js].

    Storage is an explicit [store] value threaded through every handler;
    each SQL statement that occurs in the source is one function on it.
    Exceptions are values of a [result] type, [try]/[catch]/[finally] are
    written out as matches on them. *)

From Stdlib Require Import ZArith Lia String Ascii List Bool DecimalString DecimalZ.
From stdpp Require Import base decidable option list strings countable sorting.

#[local] Set Warnings "-register-all".

Local Open Scope string_scope.
Local Open Scope Z_scope.

(** ** Results of fallible calls *)

Inductive result (E A : Type) : Type :=
| Ok (a : A)
| Err (e : E).
Arguments Ok {E A} a.
Arguments Err {E A} e.

(** ** JSON values sent with [res.json] *)

Inductive json : Type :=
| JUndefined
| JNum (n : Z)
| JStr (s : string)
| JObj (fields : list (string * json)).

Record response : Type := mk_response {
  status : Z;
  body : json
}.

(** [res.json(x)] without a preceding [res.status] answers [200]. *)
Definition res_json (b : json) : response := mk_response 200 b.
Definition res_status_json (code : Z) (b : json) : response := mk_response code b.

Definition error_body (msg : string) : json := JObj [("error", JStr msg)].

(** The value of a top-level field of a JSON object body. *)
Fixpoint field_lookup (k : string) (fs : list (string * json)) : option json :=
  match fs with
  | [] => None
  | (k', v) :: fs' => if String.eqb k k' then Some v else field_lookup k fs'
  end.

Definition body_field (k : string) (r : response) : option json :=
  match body r with
  | JObj fs => field_lookup k fs
  | _ => None
  end.

(** ** [String.prototype.split] with a one-character separator *)

Fixpoint split (sep : ascii) (s : string) : list string :=
  match s with
  | EmptyString => [EmptyString]
  | String a s' =>
      if Ascii.eqb a sep then EmptyString :: split sep s'
      else match split sep s' with
           | [] => [String a EmptyString]
           | w :: ws => String a w :: ws
           end
  end.

Fixpoint occurs (c : ascii) (s : string) : bool :=
  match s with
  | EmptyString => false
  | String a s' => Ascii.eqb a c || occurs c s'
  end.

Definition space : ascii := " "%char.

(** ** Storage: the two tables of [init.js]

    [users]: [id INT PRIMARY KEY AUTO_INCREMENT], [username] and [email]
    [UNIQUE NOT NULL], [password], [created_at].  [posts]: [id], [title],
    [content], [user_id] with a foreign key to [users(id)], [created_at]. *)

Record user_row : Type := mk_user {
  u_id : Z;
  u_username : string;
  u_email : string;
  u_password : string;
  u_created_at : Z
}.

Record post_row : Type := mk_post {
  p_id : Z;
  p_title : string;
  p_content : string;
  p_user_id : Z;
  p_created_at : Z
}.

Record table (R : Type) : Type := mk_table {
  rows : list R;
  auto_increment : Z
}.
Arguments mk_table {R} rows auto_increment.
Arguments rows {R} t.
Arguments auto_increment {R} t.

Definition empty_table {R} : table R := mk_table [] 1.

Record database : Type := mk_database {
  users : option (table user_row);
  posts : option (table post_row)
}.

(** [None] is a server on which the logical database does not exist yet. *)
Definition store : Type := option database.

Inductive db_error : Type :=
| ER_BAD_DB_ERROR
| ER_NO_SUCH_TABLE
| ER_CANNOT_ADD_FOREIGN
| ER_DUP_ENTRY
| ER_NO_REFERENCED_ROW_2
| PROTOCOL_CONNECTION_LOST
| ECONNREFUSED.

Definition message (e : db_error) : string :=
  match e with
  | ER_BAD_DB_ERROR => "Unknown database"
  | ER_NO_SUCH_TABLE => "Table doesn't exist"
  | ER_CANNOT_ADD_FOREIGN => "Cannot add foreign key constraint"
  | ER_DUP_ENTRY => "Duplicate entry"
  | ER_NO_REFERENCED_ROW_2 => "Cannot add or update a child row: a foreign key constraint fails"
  | PROTOCOL_CONNECTION_LOST => "Connection lost: The server closed the connection."
  | ECONNREFUSED => "connect ECONNREFUSED"
  end.

(** The header a write statement resolves to. *)
Record ok_packet : Type := mk_ok {
  affectedRows : Z;
  insertId : Z
}.

(** A statement maps the store to what the [await] yields and the store
    it leaves. *)
Definition sql (A : Type) : Type := store -> result db_error A * store.

Definition with_database {A} (f : database -> result db_error A * database) : sql A :=
  fun st =>
    match st with
    | None => (Err ER_BAD_DB_ERROR, st)
    | Some d => let (r, d') := f d in (r, Some d')
    end.

Definition count_rows {R} (t : table R) : Z := Z.of_nat (length (rows t)).

(** The seed data of [mockData.js]. *)
Record mock_user : Type := mk_mock_user {
  mu_username : string;
  mu_email : string;
  mu_password : string
}.

Record mock_post : Type := mk_mock_post {
  mp_title : string;
  mp_content : string;
  mp_user_id : Z
}.

Definition mockUsers : list mock_user :=
  [ mk_mock_user "johndoe" "john@example.com" "password123";
    mk_mock_user "janedoe" "jane@example.com" "password456" ].

Definition mockPosts : list mock_post :=
  [ mk_mock_post "Getting Started with Node.js"
      "Node.js is a powerful JavaScript runtime built on Chrome's V8 engine. It allows developers to build scalable network applications."
      1;
    mk_mock_post "Understanding Express Framework"
      "Express is a minimal and flexible Node.js web application framework that provides a robust set of features for web and mobile applications."
      1;
    mk_mock_post "MySQL Best Practices"
      "When working with MySQL, it's important to follow best practices such as using prepared statements, indexing properly, and normalizing your data."
      2;
    mk_mock_post "REST API Design Principles"
      "RESTful APIs should be stateless, cacheable, and follow standard HTTP methods. Proper resource naming and status codes are essential."
      2;
    mk_mock_post "JWT Authentication Explained"
      "JSON Web Tokens provide a secure way to transmit information between parties. They consist of three parts: header, payload, and signature."
      1 ].

(** ** Token claims *)

(** What [jwt.sign] is given by the login route. *)
Record claims : Type := mk_claims {
  c_id : Z;
  c_email : string
}.

(** What a token carries: the claims, the issue time and the expiry, both
    in seconds. *)
Record payload : Type := mk_payload {
  tk_id : Z;
  tk_email : string;
  tk_iat : Z;
  tk_exp : Z
}.

(** The three parts of a signed token. *)
Record jws : Type := mk_jws {
  jws_header : string;
  jws_payload : string;
  jws_signature : string
}.

Inductive jwt_error : Type :=
| JwtMalformed
| InvalidAlgorithm
| InvalidSignature
| TokenExpired.

Definition HS256 : string := "HS256".

(** [{ expiresIn: "24h" }], in seconds. *)
Definition expiresIn_24h : Z := 24 * 60 * 60.

(** ** Requests *)

(** What the middleware and the routes read of a request: the
    Authorization header, [req.params.id], and the fields of the JSON
    body, each at the type the routes expect of it, a string. *)
Record request : Type := mk_request {
  authorization : option string;
  params_id : string;
  body_username : string;
  body_email : string;
  body_password : string;
  body_title : string;
  body_content : string
}.

(** Process-wide configuration and the per-request environment: the
    signing secret, the clock in seconds, and the salt [bcrypt.hash]
    draws. *)
Record env : Type := mk_env {
  JWT_SECRET : string;
  now : Z;
  fresh_salt : string
}.

Inductive auth_outcome : Type :=
| Next (user : payload)
| Reject (r : response).

(** ** The bootstrap connection *)

Inductive stmt : Type :=
| CREATE_DATABASE
| USE_DATABASE
| CREATE_TABLE_users
| CREATE_TABLE_posts
| SELECT_COUNT_users
| SELECT_COUNT_posts
| INSERT_users (username email password : string)
| INSERT_posts (title content : string) (user_id : Z).

(** What the bootstrap is run against: whether [createConnection]
    fails, which of the statements issued on the connection (counted
    from 0) fails on the wire, the clock, and the salts [bcrypt.hash]
    draws, in order. *)
Record boot_env : Type := mk_boot_env {
  connect_fails : bool;
  query_fails : nat -> bool;
  boot_now : Z;
  boot_salts : nat -> string
}.

(** The connection of [createTables]: the store behind it, every
    statement issued so far with the error it raised, if any, whether
    [connection.end()] has run, and how many salts were drawn. *)
Record connection : Type := mk_connection {
  conn_store : store;
  conn_log : list (stmt * option db_error);
  conn_ended : bool;
  salts_drawn : nat
}.

Definition boot (A : Type) : Type := connection -> result db_error A * connection.

Definition boot_ret {A} (a : A) : boot A := fun c => (Ok a, c).

Definition boot_bind {A B} (m : boot A) (k : A -> boot B) : boot B :=
  fun c =>
    match m c with
    | (Ok a, c') => k a c'
    | (Err e, c') => (Err e, c')
    end.

Notation "x <~ m ;; k" := (boot_bind m (fun x => k))
  (at level 100, m at next level, right associativity).

(** [for (const x of xs) { await f(x) }] *)
Fixpoint for_of {A} (xs : list A) (f : A -> boot unit) : boot unit :=
  match xs with
  | [] => boot_ret tt
  | x :: xs' => _ <~ f x ;; for_of xs' f
  end.

Definition raised {A} (r : result db_error A) : option db_error :=
  match r with Ok _ => None | Err e => Some e end.

(** [await connection.query(...)]. *)
Definition query {A} (be : boot_env) (s : stmt) (run : sql A) : boot A :=
  fun c =>
    if query_fails be (length (conn_log c)) then
      (Err PROTOCOL_CONNECTION_LOST,
       mk_connection (conn_store c)
         (conn_log c ++ [(s, Some PROTOCOL_CONNECTION_LOST)])
         (conn_ended c) (salts_drawn c))
    else
      let (r, st') := run (conn_store c) in
      (r, mk_connection st' (conn_log c ++ [(s, raised r)])
            (conn_ended c) (salts_drawn c)).

(** How the process of [server.js] ends its start-up. *)
Inductive startup : Type :=
| Listening (st : store)
| Crashed (e : db_error).

(** What a run of [createTables] leaves: the promise's result and, when
    a connection was made, its final state. *)
Record boot_outcome : Type := mk_boot_outcome {
  settled : result db_error unit;
  conn : option connection
}.

(** ** A reference instance of the library primitives

    The development is parametric in the hash, the MAC, the token
    serialization and the collation.  This module gives one executable
    choice of each, on which the statements below are run. *)

Module Reference.

(** A list of strings as one string: every character is preceded by
    ["c"], fields are separated by [";"]. *)
Fixpoint quote (s : string) : string :=
  match s with
  | EmptyString => EmptyString
  | String a s' => String "c"%char (String a (quote s'))
  end.

Fixpoint frame (fields : list string) : string :=
  match fields with
  | [] => EmptyString
  | [s] => quote s
  | s :: rest => quote s ++ String ";"%char (frame rest)
  end.

Fixpoint unframe (s : string) : option (list string) :=
  match s with
  | EmptyString => Some [EmptyString]
  | String a s' =>
      if Ascii.eqb a ";"%char then cons EmptyString <$> unframe s'
      else if Ascii.eqb a "c"%char then
        match s' with
        | EmptyString => None
        | String x s'' =>
            match unframe s'' with
            | Some (w :: ws) => Some (String x w :: ws)
            | _ => None
            end
        end
      else None
  end.

Definition show_Z (n : Z) : string := NilEmpty.string_of_int (Z.to_int n).
Definition read_Z (s : string) : option Z := Z.of_int <$> NilEmpty.int_of_string s.

Definition claims_encode (p : payload) : string :=
  frame [show_Z (tk_id p); tk_email p; show_Z (tk_iat p); show_Z (tk_exp p)].

Definition claims_decode (s : string) : option payload :=
  match unframe s with
  | Some [i; e; a; x] =>
      match read_Z i, read_Z a, read_Z x with
      | Some i', Some a', Some x' => Some (mk_payload i' e a' x')
      | _, _, _ => None
      end
  | _ => None
  end.

Definition jws_compact (j : jws) : string :=
  frame [jws_header j; jws_payload j; jws_signature j].

Definition jws_parse (s : string) : option jws :=
  match unframe s with
  | Some [h; p; g] => Some (mk_jws h p g)
  | _ => None
  end.

Definition mac (key header body : string) : string := frame [key; header; body].

Definition bcrypt_hash (plain : string) (rounds : Z) (salt : string) : string :=
  "$2b$" ++ plain ++ "$" ++ salt.
Definition bcrypt_compare (plain hash : string) : bool :=
  String.prefix ("$2b$" ++ plain ++ "$") hash.
Definition bcrypt_well_formed (hash : string) : bool :=
  String.prefix "$2b$" hash.

Definition collate_eq : string -> string -> bool := String.eqb.

Definition int_eq_text (n : Z) (s : string) : bool :=
  String.eqb (NilZero.string_of_int (Z.to_int n)) s.

End Reference.

(** ** Concrete data for the runs at the end of the file *)

Definition secret : string := "server-secret".

(** The clock at 2000 s, and at the expiry of a token issued then. *)
Definition demo_env : env := mk_env secret 2000 "salt-r".
Definition late_env : env := mk_env secret (2000 + 24 * 60 * 60) "salt-r".

Definition john : user_row :=
  mk_user 1 "johndoe" "john@example.com" "$2b$password123$s0" 1000.
Definition jane : user_row :=
  mk_user 2 "janedoe" "jane@example.com" "$2b$password456$s1" 1000.
(** An account whose password column was not written by the server. *)
Definition legacy : user_row :=
  mk_user 3 "legacy" "legacy@example.com" "password789" 1000.
Definition johns_post : post_row :=
  mk_post 1 "Getting Started with Node.js" "Node.js is a powerful JavaScript runtime." 1 1000.

Definition demo_store : store :=
  Some (mk_database (Some (mk_table [john; jane; legacy] 4))
          (Some (mk_table [johns_post] 2))).

Definition demo_request (auth : option string) (id email password : string) : request :=
  mk_request auth id "newuser" email password "t" "c".

Definition bearer (token : string) : option string := Some ("Bearer " ++ token).

Definition healthy_env : boot_env :=
  mk_boot_env false (fun _ => false) 1000
    (fun n => match n with O => "s0" | _ => "s1" end).

(** The wire fails on the sixth statement, the first seed insert. *)
Definition failing_env : boot_env :=
  mk_boot_env false (fun n => Nat.eqb n 5) 1000 (fun _ => "s0").

(** Accounts 1 and 2 are gone, account 3 is left, no posts. *)
Definition orphaned_store : store :=
  Some (mk_database (Some (mk_table [legacy] 4)) (Some (mk_table [] 6))).

(** Accounts are there, the posts were deleted. *)
Definition posts_deleted_store : store :=
  Some (mk_database (Some (mk_table [john; jane] 3)) (Some (mk_table [] 6))).

Section Server.

(** *** Parameters of the storage engine *)

(** Equality of two strings under the collation of the [username] and
    [email] columns, as used by [WHERE email = ?] and by the [UNIQUE]
    indexes. *)
Variable collate_eq : string -> string -> bool.

(** The comparison [id = ?] of the INT column [id] with the text
    parameter [req.params.id]. *)
Variable int_eq_text : Z -> string -> bool.

(** *** Credential Hasher *)

(** Modelled from the spec: the Credential Hasher ([bcrypt.hash] and
    [bcrypt.compare] of the bcrypt package, which is not under src/),
    with the contract [hash(plaintext) -> opaque_hash] (salted, here
    with the salt as an argument) and
    [verify(plaintext, opaque_hash) -> bool]. *)
Variable bcrypt_hash : string -> Z -> string -> string.
Variable bcrypt_compare : string -> string -> bool.

(** Whether a stored value has the format of a hash at all. *)
Variable bcrypt_well_formed : string -> bool.

(** *** Token Service *)

(** The keyed MAC over the header and the encoded claims, the compact
    serialization of the three parts, and the encoding of the claims. *)
Variable mac : string -> string -> string -> string.
Variable jws_compact : jws -> string.
Variable jws_parse : string -> option jws.
Variable claims_encode : payload -> string.
Variable claims_decode : string -> option payload.

(** Modelled from the spec: [issue(claims, secret, ttl) -> token_string]
    of the Token Service ([jwt.sign] of jsonwebtoken, which is not under
    src/): a signed structure containing the claims plus an absolute
    expiry computed as issue-time + ttl, with a symmetric MAC over
    claims+expiry keyed by the secret. *)
Definition jwt_sign (c : claims) (secret : string) (expiresIn : Z) (issued : Z) : string :=
  let p := mk_payload (c_id c) (c_email c) issued (issued + expiresIn) in
  let b := claims_encode p in
  jws_compact (mk_jws HS256 b (mac secret HS256 b)).

(** Reading the claims of a token without checking anything. *)
Definition jwt_decode (token : string) : option payload :=
  match jws_parse token with
  | None => None
  | Some j => claims_decode (jws_payload j)
  end.

(** Modelled from the spec: [verify(token_string, secret) -> claims |
    Invalid] of the Token Service ([jwt.verify] of jsonwebtoken, which
    is not under src/): reject malformed tokens, reject tokens whose
    signature does not match, reject tokens past their expiry, each as
    a distinct failure. *)
Definition jwt_verify (token secret : string) (clock : Z) : result jwt_error payload :=
  match jws_parse token with
  | None => Err JwtMalformed
  | Some j =>
      match claims_decode (jws_payload j) with
      | None => Err JwtMalformed
      | Some p =>
          if negb (String.eqb (jws_header j) HS256) then Err InvalidAlgorithm
          else if negb (String.eqb (jws_signature j)
                          (mac secret (jws_header j) (jws_payload j)))
          then Err InvalidSignature
          else if tk_exp p <=? clock then Err TokenExpired
          else Ok p
      end
  end.

(** *** The statements of the source *)

Definition ok_unchanged : ok_packet := mk_ok 0 0.

(** [CREATE DATABASE IF NOT EXISTS] *)
Definition create_database : sql ok_packet :=
  fun st =>
    match st with
    | None => (Ok (mk_ok 1 0), Some (mk_database None None))
    | Some _ => (Ok ok_unchanged, st)
    end.

(** [USE] *)
Definition use_database : sql ok_packet :=
  with_database (fun d => (Ok ok_unchanged, d)).

(** [CREATE TABLE IF NOT EXISTS users (...)] *)
Definition create_users_table : sql ok_packet :=
  with_database (fun d =>
    match users d with
    | Some _ => (Ok ok_unchanged, d)
    | None => (Ok ok_unchanged, mk_database (Some empty_table) (posts d))
    end).

(** [CREATE TABLE IF NOT EXISTS posts (... FOREIGN KEY (user_id)
    REFERENCES users(id) ON DELETE CASCADE)] *)
Definition create_posts_table : sql ok_packet :=
  with_database (fun d =>
    match posts d, users d with
    | Some _, _ => (Ok ok_unchanged, d)
    | None, Some _ => (Ok ok_unchanged, mk_database (users d) (Some empty_table))
    | None, None => (Err ER_CANNOT_ADD_FOREIGN, d)
    end).

(** [SELECT COUNT( * ) as count FROM users] *)
Definition count_users : sql Z :=
  with_database (fun d =>
    match users d with
    | None => (Err ER_NO_SUCH_TABLE, d)
    | Some t => (Ok (count_rows t), d)
    end).

(** [SELECT COUNT( * ) as count FROM posts] *)
Definition count_posts : sql Z :=
  with_database (fun d =>
    match posts d with
    | None => (Err ER_NO_SUCH_TABLE, d)
    | Some t => (Ok (count_rows t), d)
    end).

Definition duplicates (username email : string) (u : user_row) : bool :=
  collate_eq (u_username u) username || collate_eq (u_email u) email.

(** [INSERT INTO users (username, email, password) VALUES (?, ?, ?)].
    A statement refused by an index has still drawn its id. *)
Definition insert_user (created : Z) (username email password : string) : sql ok_packet :=
  with_database (fun d =>
    match users d with
    | None => (Err ER_NO_SUCH_TABLE, d)
    | Some t =>
        let id := auto_increment t in
        if existsb (duplicates username email) (rows t) then
          (Err ER_DUP_ENTRY,
           mk_database (Some (mk_table (rows t) (id + 1))) (posts d))
        else
          (Ok (mk_ok 1 id),
           mk_database
             (Some (mk_table (rows t ++ [mk_user id username email password created])
                      (id + 1)))
             (posts d))
    end).

(** [INSERT INTO posts (title, content, user_id) VALUES (?, ?, ?)],
    refused when no account has the id [user_id]. *)
Definition insert_post (created : Z) (title content : string) (user_id : Z) : sql ok_packet :=
  with_database (fun d =>
    match posts d, users d with
    | Some t, Some ut =>
        let id := auto_increment t in
        if existsb (fun u => u_id u =? user_id) (rows ut) then
          (Ok (mk_ok 1 id),
           mk_database (users d)
             (Some (mk_table (rows t ++ [mk_post id title content user_id created])
                      (id + 1))))
        else
          (Err ER_NO_REFERENCED_ROW_2,
           mk_database (users d) (Some (mk_table (rows t) (id + 1))))
    | _, _ => (Err ER_NO_SUCH_TABLE, d)
    end).

(** [SELECT * FROM users WHERE email = ?] *)
Definition select_user_by_email (email : string) : sql (list user_row) :=
  with_database (fun d =>
    match users d with
    | None => (Err ER_NO_SUCH_TABLE, d)
    | Some t => (Ok (List.filter (fun u => collate_eq (u_email u) email) (rows t)), d)
    end).

(** [SELECT id, username, email FROM users WHERE id = ?] *)
Definition select_profile (id : Z) : sql (list (Z * string * string)) :=
  with_database (fun d =>
    match users d with
    | None => (Err ER_NO_SUCH_TABLE, d)
    | Some t =>
        (Ok (List.map (fun u => (u_id u, u_username u, u_email u))
               (List.filter (fun u => u_id u =? id) (rows t))), d)
    end).

(** The predicate [WHERE id = ? AND user_id = ?]. *)
Definition where_id_and_user_id (id : string) (user_id : Z) (p : post_row) : bool :=
  int_eq_text (p_id p) id && (p_user_id p =? user_id).

(** [UPDATE posts SET title = ?, content = ? WHERE id = ? AND user_id = ?];
    [affectedRows] counts the rows the predicate matched. *)
Definition update_post (title content id : string) (user_id : Z) : sql ok_packet :=
  with_database (fun d =>
    match posts d with
    | None => (Err ER_NO_SUCH_TABLE, d)
    | Some t =>
        let hit := where_id_and_user_id id user_id in
        (Ok (mk_ok (Z.of_nat (length (List.filter hit (rows t)))) 0),
         mk_database (users d)
           (Some (mk_table
                    (List.map (fun p =>
                       if hit p
                       then mk_post (p_id p) title content (p_user_id p) (p_created_at p)
                       else p) (rows t))
                    (auto_increment t))))
    end).

(** [DELETE FROM posts WHERE id = ? AND user_id = ?] *)
Definition delete_post (id : string) (user_id : Z) : sql ok_packet :=
  with_database (fun d =>
    match posts d with
    | None => (Err ER_NO_SUCH_TABLE, d)
    | Some t =>
        let hit := where_id_and_user_id id user_id in
        (Ok (mk_ok (Z.of_nat (length (List.filter hit (rows t)))) 0),
         mk_database (users d)
           (Some (mk_table (List.filter (fun p => negb (hit p)) (rows t))
                    (auto_increment t))))
    end).

(** *** [src/middleware/auth.js] *)

(** [req.headers.authorization?.split(" ")[1]] *)
Definition header_token (req : request) : option string :=
  match authorization req with
  | None => None
  | Some h => nth_error (split space h) 1
  end.

Definition no_token_provided : response :=
  res_status_json 401 (error_body "No token provided").
Definition invalid_token : response :=
  res_status_json 401 (error_body "Invalid token").

Definition authMiddleware (e : env) (req : request) : auth_outcome :=
  match header_token req with
  | None => Reject no_token_provided
  | Some token =>
      if String.eqb token EmptyString then Reject no_token_provided
      else
        match jwt_verify token (JWT_SECRET e) (now e) with
        | Ok decoded => Next decoded
        | Err _ => Reject invalid_token
        end
  end.

Definition handler : Type := env -> request -> store -> response * store.

(** [router.METHOD(path, authMiddleware, h)]: [h] runs with [req.user]
    set when the middleware calls [next()], and not at all otherwise. *)
Definition protected (h : payload -> handler) : handler :=
  fun e req st =>
    match authMiddleware e req with
    | Reject r => (r, st)
    | Next user => h user e req st
    end.

Definition server_error (error : db_error) : response :=
  res_status_json 500 (error_body (message error)).

(** *** [routes/users.js] *)

Definition invalid_credentials : response :=
  res_status_json 401 (error_body "Invalid credentials").

(** [router.post("/register")] *)
Definition router_post_register : handler :=
  fun e req st =>
    let hashedPassword := bcrypt_hash (body_password req) 10 (fresh_salt e) in
    match insert_user (now e) (body_username req) (body_email req) hashedPassword st with
    | (Ok result, st') =>
        (res_status_json 201
           (JObj [("message", JStr "User created"); ("userId", JNum (insertId result))]),
         st')
    | (Err error, st') => (server_error error, st')
    end.

(** [router.post("/login")] *)
Definition router_post_login : handler :=
  fun e req st =>
    match select_user_by_email (body_email req) st with
    | (Err error, st') => (server_error error, st')
    | (Ok [], st') => (invalid_credentials, st')
    | (Ok (user :: _), st') =>
        let validPassword := bcrypt_compare (body_password req) (u_password user) in
        if negb validPassword then (invalid_credentials, st')
        else
          let token :=
            jwt_sign (mk_claims (u_id user) (u_email user)) (JWT_SECRET e)
              expiresIn_24h (now e) in
          (res_json
             (JObj [("token", JStr token);
                    ("user", JObj [("id", JNum (u_id user));
                                   ("username", JStr (u_username user));
                                   ("email", JStr (u_email user))])]),
           st')
    end.

(** [res.json(users[0])] on the rows of the profile query. *)
Definition first_profile (rs : list (Z * string * string)) : json :=
  match rs with
  | [] => JUndefined
  | (id, username, email) :: _ =>
      JObj [("id", JNum id); ("username", JStr username); ("email", JStr email)]
  end.

(** [router.get("/profile", authMiddleware, ...)] *)
Definition router_get_profile : handler :=
  protected (fun user e req st =>
    match select_profile (tk_id user) st with
    | (Ok rs, st') => (res_json (first_profile rs), st')
    | (Err error, st') => (server_error error, st')
    end).

(** *** [routes/posts.js] *)

Definition not_found_or_unauthorized : response :=
  res_status_json 404 (error_body "Post not found or unauthorized").

(** [router.post("/", authMiddleware, ...)] *)
Definition router_post_post : handler :=
  protected (fun user e req st =>
    match insert_post (now e) (body_title req) (body_content req) (tk_id user) st with
    | (Ok result, st') =>
        (res_status_json 201
           (JObj [("message", JStr "Post created"); ("postId", JNum (insertId result))]),
         st')
    | (Err error, st') => (server_error error, st')
    end).

(** [router.put("/:id", authMiddleware, ...)] *)
Definition router_put_post : handler :=
  protected (fun user e req st =>
    match update_post (body_title req) (body_content req) (params_id req) (tk_id user) st with
    | (Ok result, st') =>
        if affectedRows result =? 0 then (not_found_or_unauthorized, st')
        else (res_json (JObj [("message", JStr "Post updated")]), st')
    | (Err error, st') => (server_error error, st')
    end).

(** [router.delete("/:id", authMiddleware, ...)] *)
Definition router_delete_post : handler :=
  protected (fun user e req st =>
    match delete_post (params_id req) (tk_id user) st with
    | (Ok result, st') =>
        if affectedRows result =? 0 then (not_found_or_unauthorized, st')
        else (res_json (JObj [("message", JStr "Post deleted")]), st')
    | (Err error, st') => (server_error error, st')
    end).

(** *** [src/config/init.js] *)

(** [await bcrypt.hash(password, rounds)] during the bootstrap. *)
Definition hash_with_next_salt (be : boot_env) (password : string) (rounds : Z) : boot string :=
  fun c =>
    (Ok (bcrypt_hash password rounds (boot_salts be (salts_drawn c))),
     mk_connection (conn_store c) (conn_log c) (conn_ended c) (S (salts_drawn c))).

Definition seed_user (be : boot_env) (user : mock_user) : boot unit :=
  hashedPassword <~ hash_with_next_salt be (mu_password user) 10 ;;
  _ <~ query be (INSERT_users (mu_username user) (mu_email user) hashedPassword)
         (insert_user (boot_now be) (mu_username user) (mu_email user) hashedPassword) ;;
  boot_ret tt.

Definition seed_post (be : boot_env) (post : mock_post) : boot unit :=
  _ <~ query be (INSERT_posts (mp_title post) (mp_content post) (mp_user_id post))
         (insert_post (boot_now be) (mp_title post) (mp_content post) (mp_user_id post)) ;;
  boot_ret tt.

(** The body of the [try] block. *)
Definition createTables_try (be : boot_env) : boot unit :=
  _ <~ query be CREATE_DATABASE create_database ;;
  _ <~ query be USE_DATABASE use_database ;;
  _ <~ query be CREATE_TABLE_users create_users_table ;;
  _ <~ query be CREATE_TABLE_posts create_posts_table ;;
  userCount <~ query be SELECT_COUNT_users count_users ;;
  _ <~ (if userCount =? 0 then for_of mockUsers (seed_user be) else boot_ret tt) ;;
  postCount <~ query be SELECT_COUNT_posts count_posts ;;
  _ <~ (if postCount =? 0 then for_of mockPosts (seed_post be) else boot_ret tt) ;;
  boot_ret tt.

(** [connection.end()] *)
Definition connection_end (c : connection) : connection :=
  mk_connection (conn_store c) (conn_log c) true (salts_drawn c).

(** [createTables]: the connection is made before the [try]; [catch]
    rethrows what it caught; [finally] ends the connection. *)
Definition createTables (be : boot_env) (st : store) : boot_outcome :=
  if connect_fails be then mk_boot_outcome (Err ECONNREFUSED) None
  else
    let (r, c) := createTables_try be (mk_connection st [] false 0) in
    mk_boot_outcome r (Some (connection_end c)).

(** The store behind the server once [createTables] has settled. *)
Definition store_after (be : boot_env) (st : store) : store :=
  match conn (createTables be st) with
  | Some c => conn_store c
  | None => st
  end.

(** [server.js]: [await createTables()] at the top level, then
    [app.listen]. *)
Definition server_start (be : boot_env) (st : store) : startup :=
  match settled (createTables be st) with
  | Ok _ => Listening (store_after be st)
  | Err e => Crashed e
  end.

(** *** Predicates the statements below are phrased with *)

(** An Authorization header from which no credential part can be
    taken: no header at all, a header that is one token (no space), or
    a scheme followed by a space and then nothing or another space. *)
Inductive no_credential : option string -> Prop :=
| header_absent : no_credential None
| scheme_only h : occurs space h = false -> no_credential (Some h)
| credential_empty scheme rest :
    occurs space scheme = false ->
    rest = EmptyString \/ (exists r, rest = String space r) ->
    no_credential (Some (scheme ++ String space rest)).

(** A header with a credential part: a scheme, a space, a non-empty
    space-free credential, and then either the end or a space and
    anything. *)
Inductive has_credential (cred : string) : string -> Prop :=
| two_tokens scheme :
    occurs space scheme = false -> occurs space cred = false ->
    cred <> EmptyString ->
    has_credential cred (scheme ++ String space cred)
| more_tokens scheme more :
    occurs space scheme = false -> occurs space cred = false ->
    cred <> EmptyString ->
    has_credential cred (scheme ++ String space (cred ++ String space more)).

(** [token'] is [token] with its claim bytes altered: the header and
    signature parts agree and the claim parts differ, or the alteration
    has left a string that no longer has three parts. *)
Definition claims_altered (token token' : string) : Prop :=
  match jws_parse token, jws_parse token' with
  | Some j, Some j' =>
      jws_header j' = jws_header j /\
      jws_signature j' = jws_signature j /\
      jws_payload j' <> jws_payload j
  | Some _, None => True
  | None, _ => False
  end.

(** The two ways [WHERE id = ? AND user_id = ?] can match nothing. *)
Definition no_such_post (id : string) (t : table post_row) : Prop :=
  forall p, In p (rows t) -> int_eq_text (p_id p) id = false.

Definition owned_by_another (id : string) (user_id : Z) (t : table post_row) : Prop :=
  (exists p, In p (rows t) /\ int_eq_text (p_id p) id = true) /\
  (forall p, In p (rows t) -> int_eq_text (p_id p) id = true -> p_user_id p <> user_id).

(** No statement in the log has raised. *)
Definition all_resolved (log : list (stmt * option db_error)) : Prop :=
  forall s o, In (s, o) log -> o = None.

(** The environment injects no failure. *)
Definition healthy (be : boot_env) : Prop :=
  connect_fails be = false /\ forall n, query_fails be n = false.

Definition user_rows (st : store) : list user_row :=
  match st with
  | Some d => match users d with Some t => rows t | None => [] end
  | None => []
  end.

Definition post_rows (st : store) : list post_row :=
  match st with
  | Some d => match posts d with Some t => rows t | None => [] end
  | None => []
  end.

(** The last statement of the log raised [e], and none before it
    raised. *)
Definition failed_last (e : db_error) (log : list (stmt * option db_error)) : Prop :=
  exists pre s, log = (pre ++ [(s, Some e)])%list /\ all_resolved pre.

(** A step of the bootstrap run from a connection satisfying [P]
    settles with a result and a connection satisfying [Q]. *)
Definition triple {A} (P : connection -> Prop) (m : boot A)
    (Q : result db_error A -> connection -> Prop) : Prop :=
  forall c, P c -> Q (fst (m c)) (snd (m c)).

(** The postcondition of a step that stops at the first statement
    that raises. *)
Definition fail_stop_post {A} (r : result db_error A) (c : connection) : Prop :=
  match r with
  | Ok _ => all_resolved (conn_log c)
  | Err e => failed_last e (conn_log c)
  end.

Definition fail_stop {A} (m : boot A) : Prop :=
  triple (fun c => all_resolved (conn_log c)) m fail_stop_post.

(** A postcondition for the runs that resolve. *)
Definition on_ok {A} (Q : A -> connection -> Prop)
    (r : result db_error A) (c : connection) : Prop :=
  match r with
  | Ok a => Q a c
  | Err _ => True
  end.

(** An account row written by the bootstrap from the seed data: the
    password column holds the hash of the seed password. *)
Definition seeded_account (row : user_row) : Prop :=
  exists mu salt,
    In mu mockUsers /\
    u_username row = mu_username mu /\
    u_email row = mu_email mu /\
    u_password row = bcrypt_hash (mu_password mu) 10 salt.

(** Every account row is one that was there before the run or one
    seeded with a hashed password. *)
Definition old_or_seeded (st0 st : store) : Prop :=
  forall row, In row (user_rows st) -> In row (user_rows st0) \/ seeded_account row.

(** ** Facts about [split] *)

Lemma split_cons (sep : ascii) (s : string) :
  exists w ws, split sep s = w :: ws.
Proof.
  induction s as [|a s IH]; simpl.
  - eauto.
  - destruct (Ascii.eqb a sep); [eauto|].
    destruct IH as (w & ws & ->). eauto.
Qed.

Lemma split_no_sep (sep : ascii) (s : string) :
  occurs sep s = false -> split sep s = [s].
Proof.
  induction s as [|a s IH]; simpl; [reflexivity|].
  intros H. apply orb_false_iff in H as [Ha Hs].
  rewrite Ha, (IH Hs). reflexivity.
Qed.

Lemma split_at_sep (sep : ascii) (s1 s2 : string) :
  occurs sep s1 = false ->
  split sep (s1 ++ String sep s2) = s1 :: split sep s2.
Proof.
  induction s1 as [|a s1 IH]; simpl.
  - intros _. rewrite Ascii.eqb_refl. reflexivity.
  - intros H. apply orb_false_iff in H as [Ha Hs].
    rewrite Ha, (IH Hs). reflexivity.
Qed.

Lemma occurs_split (sep : ascii) (s : string) :
  occurs sep s = true ->
  exists s1 s2, s = s1 ++ String sep s2 /\ occurs sep s1 = false.
Proof.
  induction s as [|a s IH]; simpl; [discriminate|].
  destruct (Ascii.eqb a sep) eqn:Ha; simpl.
  - intros _. apply Ascii.eqb_eq in Ha as ->.
    exists EmptyString, s. split; reflexivity.
  - intros H. destruct (IH H) as (s1 & s2 & -> & Hs1).
    exists (String a s1), s2. simpl. rewrite Ha, Hs1. split; reflexivity.
Qed.

(** ** The request authenticator *)

Lemma header_token_no_credential (req : request) :
  no_credential (authorization req) ->
  header_token req = None \/ header_token req = Some EmptyString.
Proof.
  unfold header_token. intros H. inversion H as [|h Hh Heq|scheme rest Hs Hr Heq].
  - left. reflexivity.
  - left. rewrite (split_no_sep _ _ Hh). reflexivity.
  - right. rewrite (split_at_sep _ _ _ Hs).
    destruct Hr as [->|[r ->]]; reflexivity.
Qed.

Lemma header_token_has_credential (req : request) (h cred : string) :
  authorization req = Some h -> has_credential cred h ->
  header_token req = Some cred.
Proof.
  unfold header_token. intros -> H.
  destruct H as [scheme Hs Hc Hne|scheme more Hs Hc Hne];
    rewrite (split_at_sep _ _ _ Hs).
  - rewrite (split_no_sep _ _ Hc). reflexivity.
  - rewrite (split_at_sep _ _ _ Hc). reflexivity.
Qed.

(** Every header either yields no credential part or has one. *)
Lemma header_shapes (h : string) :
  no_credential (Some h) \/ exists cred, has_credential cred h.
Proof.
  destruct (occurs space h) eqn:Hh; [|left; apply scheme_only; exact Hh].
  destruct (occurs_split _ _ Hh) as (scheme & rest & -> & Hs).
  destruct rest as [|a rest'].
  - left. apply credential_empty; auto.
  - destruct (Ascii.eqb a space) eqn:Ha.
    + apply Ascii.eqb_eq in Ha as ->. left. apply credential_empty; eauto.
    + right. destruct (occurs space (String a rest')) eqn:Hr.
      * destruct (occurs_split _ _ Hr) as (cred & more & Heq & Hc).
        exists cred. rewrite Heq. apply more_tokens; auto.
        intros ->. simpl in Heq. injection Heq as -> _.
        rewrite Ascii.eqb_refl in Ha. discriminate.
      * exists (String a rest'). apply two_tokens; auto.
Qed.

(** C2. On a protected route, a request whose Authorization header is
    absent or yields no credential part (one token only, or a scheme
    followed by nothing) is answered 401 with error "No token
    provided"; a request whose header has a credential part on which
    token verification fails, for whatever reason, is answered 401
    with error "Invalid token"; and every header is of one of these
    two kinds. *)
Theorem authMiddleware_rejections (e : env) (req : request) :
  (no_credential (authorization req) ->
   authMiddleware e req
   = Reject (mk_response 401 (JObj [("error", JStr "No token provided")]))) /\
  (forall h cred err,
     authorization req = Some h -> has_credential cred h ->
     jwt_verify cred (JWT_SECRET e) (now e) = Err err ->
     authMiddleware e req
     = Reject (mk_response 401 (JObj [("error", JStr "Invalid token")]))) /\
  (no_credential (authorization req) \/
   exists h cred, authorization req = Some h /\ has_credential cred h).
Proof.
  split; [|split].
  - intros H. unfold authMiddleware.
    destruct (header_token_no_credential req H) as [-> | ->]; reflexivity.
  - intros h cred err Hh Hc Hv. unfold authMiddleware.
    rewrite (header_token_has_credential req h cred Hh Hc), Hv.
    destruct (String.eqb cred EmptyString) eqn:Hn; [|reflexivity].
    apply String.eqb_eq in Hn. destruct Hc; contradiction.
  - destruct (authorization req) as [h|]; [|left; apply header_absent].
    destruct (header_shapes h) as [Hno|[cred Hc]]; [left; exact Hno|].
    right. exists h, cred. split; [reflexivity|exact Hc].
Qed.

(** A rejected request never reaches the handler, and the store is
    left as it was. *)
Lemma protected_reject (h : payload -> handler) e req st r :
  authMiddleware e req = Reject r -> protected h e req st = (r, st).
Proof. unfold protected. intros ->. reflexivity. Qed.

Lemma protected_next (h : payload -> handler) e req st user :
  authMiddleware e req = Next user -> protected h e req st = h user e req st.
Proof. unfold protected. intros ->. reflexivity. Qed.

(** Whatever the middleware rejects, it rejects with 401. *)
Lemma authMiddleware_reject_401 e req r :
  authMiddleware e req = Reject r -> status r = 401.
Proof.
  unfold authMiddleware.
  destruct (header_token req) as [token|]; [|intros [= <-]; reflexivity].
  destruct (String.eqb token EmptyString); [intros [= <-]; reflexivity|].
  destruct (jwt_verify _ _ _); [discriminate|intros [= <-]; reflexivity].
Qed.

Lemma authMiddleware_verify_error e req token err :
  header_token req = Some token ->
  jwt_verify token (JWT_SECRET e) (now e) = Err err ->
  exists r, status r = 401 /\ authMiddleware e req = Reject r.
Proof.
  intros Ht Hv. unfold authMiddleware. rewrite Ht, Hv.
  destruct (String.eqb token EmptyString);
    eexists; (split; [|reflexivity]); reflexivity.
Qed.

Lemma authMiddleware_next e req user :
  authMiddleware e req = Next user ->
  exists token, header_token req = Some token /\
    jwt_verify token (JWT_SECRET e) (now e) = Ok user.
Proof.
  unfold authMiddleware.
  destruct (header_token req) as [token|]; [|discriminate].
  destruct (String.eqb token EmptyString); [discriminate|].
  destruct (jwt_verify _ _ _) eqn:Hv; [|discriminate].
  intros [= ->]. eauto.
Qed.

(** ** The token service *)

(** The serializations can be read back. *)
Hypothesis parse_compact : forall j, jws_parse (jws_compact j) = Some j.
Hypothesis decode_encode : forall p, claims_decode (claims_encode p) = Some p.

(** Under one key and header, two different claim encodings never
    have the same MAC. *)
Hypothesis mac_collision_free :
  forall key header b b', mac key header b = mac key header b' -> b = b'.

Lemma jwt_decode_sign c secret ttl issued :
  jwt_decode (jwt_sign c secret ttl issued)
  = Some (mk_payload (c_id c) (c_email c) issued (issued + ttl)).
Proof.
  unfold jwt_decode, jwt_sign. rewrite parse_compact. simpl.
  apply decode_encode.
Qed.

Lemma jwt_verify_sign c secret ttl issued clock :
  jwt_verify (jwt_sign c secret ttl issued) secret clock
  = if issued + ttl <=? clock then Err TokenExpired
    else Ok (mk_payload (c_id c) (c_email c) issued (issued + ttl)).
Proof.
  unfold jwt_verify, jwt_sign. rewrite parse_compact. simpl.
  rewrite decode_encode. simpl.
  rewrite ?String.eqb_refl. reflexivity.
Qed.

Lemma jwt_verify_altered c secret ttl issued token' clock :
  claims_altered (jwt_sign c secret ttl issued) token' ->
  jwt_verify token' secret clock = Err JwtMalformed \/
  jwt_verify token' secret clock = Err InvalidSignature.
Proof.
  unfold claims_altered, jwt_sign, jwt_verify. rewrite parse_compact. simpl.
  destruct (jws_parse token') as [j'|]; [|left; reflexivity].
  intros (Hh & Hs & Hp).
  destruct (claims_decode (jws_payload j')); [|left; reflexivity].
  right. rewrite Hh, Hs, String.eqb_refl. simpl.
  destruct (String.eqb _ _) eqn:Heq; [|reflexivity].
  apply String.eqb_eq, mac_collision_free in Heq. congruence.
Qed.

(** C3. For a token issued by [jwt.sign]: once the clock has reached
    its expiry, verification fails (as expired); and verification of
    any token that differs from it in the claim bytes fails; in both
    cases a protected route answers 401 and its handler is not run. *)
Theorem issued_token_expired_or_altered
    (e : env) (req : request) (c : claims) (issued ttl : Z) (token' : string) :
  let token := jwt_sign c (JWT_SECRET e) ttl issued in
  (header_token req = Some token -> issued + ttl <= now e ->
   jwt_verify token (JWT_SECRET e) (now e) = Err TokenExpired /\
   exists r, status r = 401 /\ authMiddleware e req = Reject r /\
     forall h st, protected h e req st = (r, st)) /\
  (header_token req = Some token' -> claims_altered token token' ->
   (exists err, jwt_verify token' (JWT_SECRET e) (now e) = Err err) /\
   exists r, status r = 401 /\ authMiddleware e req = Reject r /\
     forall h st, protected h e req st = (r, st)).
Proof.
  intros token. split.
  - intros Ht Hexp.
    assert (Hv : jwt_verify token (JWT_SECRET e) (now e) = Err TokenExpired).
    { unfold token. rewrite jwt_verify_sign.
      destruct (Z.leb_spec (issued + ttl) (now e)); [reflexivity|lia]. }
    split; [exact Hv|].
    destruct (authMiddleware_verify_error e req token _ Ht Hv) as (r & Hr & Ha).
    exists r. repeat split; auto using protected_reject.
  - intros Ht Halt.
    assert (Hv : exists err, jwt_verify token' (JWT_SECRET e) (now e) = Err err).
    { destruct (jwt_verify_altered _ _ _ _ _ (now e) Halt) as [H|H]; eauto. }
    split; [exact Hv|]. destruct Hv as [err Hv].
    destruct (authMiddleware_verify_error e req token' _ Ht Hv) as (r & Hr & Ha).
    exists r. repeat split; auto using protected_reject.
Qed.

(** ** Login *)

(** The lookup by email reads the store and leaves it as it is. *)
Lemma select_user_by_email_store email st r st' :
  select_user_by_email email st = (r, st') -> st' = st.
Proof.
  unfold select_user_by_email, with_database.
  destruct st as [d|]; [|intros [= _ <-]; reflexivity].
  destruct (users d); intros [= _ <-]; reflexivity.
Qed.

(** C4. A login whose email matches an account and whose password
    verifies against that account's stored hash is answered with a
    token; the claims of the token decode to exactly the id and email
    of that account, its issue time is the time of the login and its
    expiry is the issue time plus 24 hours; the token verifies under
    the server's secret until then. *)
Theorem login_token_claims
    (e : env) (req : request) (st st' : store) (user : user_row) (rest : list user_row) :
  select_user_by_email (body_email req) st = (Ok (user :: rest), st') ->
  bcrypt_compare (body_password req) (u_password user) = true ->
  exists token,
    router_post_login e req st
    = (mk_response 200
         (JObj [("token", JStr token);
                ("user", JObj [("id", JNum (u_id user));
                               ("username", JStr (u_username user));
                               ("email", JStr (u_email user))])]),
       st') /\
    jwt_decode token
    = Some (mk_payload (u_id user) (u_email user) (now e) (now e + 24 * 60 * 60)) /\
    forall clock, clock < now e + 24 * 60 * 60 ->
      jwt_verify token (JWT_SECRET e) clock
      = Ok (mk_payload (u_id user) (u_email user) (now e) (now e + 24 * 60 * 60)).
Proof.
  intros Hsel Hpw.
  exists (jwt_sign (mk_claims (u_id user) (u_email user)) (JWT_SECRET e)
            expiresIn_24h (now e)).
  split; [|split].
  - unfold router_post_login. rewrite Hsel, Hpw. reflexivity.
  - rewrite jwt_decode_sign. reflexivity.
  - intros clock Hc. rewrite jwt_verify_sign. simpl c_id. simpl c_email.
    change expiresIn_24h with (24 * 60 * 60).
    destruct (Z.leb_spec (now e + 24 * 60 * 60) clock); [lia|reflexivity].
Qed.

Lemma router_post_login_mismatch (e : env) (req : request) (st st' : store) :
  select_user_by_email (body_email req) st = (Ok [], st') \/
  (exists user rest,
     select_user_by_email (body_email req) st = (Ok (user :: rest), st') /\
     bcrypt_compare (body_password req) (u_password user) = false) ->
  router_post_login e req st = (invalid_credentials, st).
Proof.
  unfold router_post_login.
  intros [Hsel | (user & rest & Hsel & Hpw)];
    rewrite Hsel; rewrite (select_user_by_email_store _ _ _ _ Hsel);
    [reflexivity|].
  rewrite Hpw. reflexivity.
Qed.

(** C5. A login whose email matches no account, and a login whose
    password does not verify against the stored hash of the matched
    account, get the same answer: 401 with error "Invalid
    credentials", a body without a token; the store is untouched. *)
Theorem login_rejections (e : env) (req : request) (st st' : store) :
  select_user_by_email (body_email req) st = (Ok [], st') \/
  (exists user rest,
     select_user_by_email (body_email req) st = (Ok (user :: rest), st') /\
     bcrypt_compare (body_password req) (u_password user) = false) ->
  router_post_login e req st
  = (mk_response 401 (JObj [("error", JStr "Invalid credentials")]), st) /\
  body_field "token" (fst (router_post_login e req st)) = None.
Proof.
  intros H. rewrite (router_post_login_mismatch e req st st' H).
  split; reflexivity.
Qed.

(** ** The credential hasher *)

(** Verifying a plaintext against its own hash succeeds. *)
Hypothesis compare_hash :
  forall plain rounds salt, bcrypt_compare plain (bcrypt_hash plain rounds salt) = true.

(** A hash is never the plaintext it was computed from. *)
Hypothesis hash_opaque :
  forall plain rounds salt, bcrypt_hash plain rounds salt <> plain.

(** Verification against a value that is not in the hash format fails. *)
Hypothesis compare_fail_closed :
  forall plain stored, bcrypt_well_formed stored = false ->
    bcrypt_compare plain stored = false.

(** C9. A login that matches an account whose stored password value
    is not in the hash format is treated as a mismatch: the answer is
    401 with error "Invalid credentials", it carries no token, and it
    is not the 500 of a raised error. *)
Theorem login_malformed_stored_hash
    (e : env) (req : request) (st st' : store) (user : user_row) (rest : list user_row) :
  select_user_by_email (body_email req) st = (Ok (user :: rest), st') ->
  bcrypt_well_formed (u_password user) = false ->
  bcrypt_compare (body_password req) (u_password user) = false /\
  router_post_login e req st
  = (mk_response 401 (JObj [("error", JStr "Invalid credentials")]), st) /\
  body_field "token" (fst (router_post_login e req st)) = None.
Proof.
  intros Hsel Hwf.
  pose proof (compare_fail_closed (body_password req) _ Hwf) as Hpw.
  split; [exact Hpw|].
  rewrite (router_post_login_mismatch e req st st'); [split; reflexivity|].
  right. eauto.
Qed.

(** ** Profile *)

(** C10. A request for the profile that carries a token which
    verifies, for an account id that no row of the users table has, is
    answered 200 with an undefined (empty) body: the first row of the
    result is sent without a check that there is one. *)
Theorem profile_of_missing_account
    (e : env) (req : request) (st : store) (token : string) (user : payload) :
  header_token req = Some token -> token <> EmptyString ->
  jwt_verify token (JWT_SECRET e) (now e) = Ok user ->
  (exists d t, st = Some d /\ users d = Some t /\
     forall u, In u (rows t) -> u_id u <> tk_id user) ->
  router_get_profile e req st = (mk_response 200 JUndefined, st).
Proof.
  intros Ht Hne Hv (d & t & -> & Hu & Hnone).
  unfold router_get_profile, protected, authMiddleware. rewrite Ht, Hv.
  destruct (String.eqb token EmptyString) eqn:Hn;
    [apply String.eqb_eq in Hn; contradiction|].
  unfold select_profile, with_database. rewrite Hu.
  replace (List.filter (fun u => u_id u =? tk_id user) (rows t)) with (@nil user_row).
  - reflexivity.
  - symmetry. induction (rows t) as [|u l IH]; [reflexivity|]. simpl.
    destruct (Z.eqb_spec (u_id u) (tk_id user)) as [Heq|_].
    + exfalso. apply (Hnone u); [left; reflexivity|exact Heq].
    + apply IH. intros u' Hin. apply Hnone. right. exact Hin.
Qed.

(** ** Update and delete of posts *)

Lemma where_never_hits id user_id (t : table post_row) :
  no_such_post id t \/ owned_by_another id user_id t ->
  forall p, In p (rows t) -> where_id_and_user_id id user_id p = false.
Proof.
  intros H p Hin. unfold where_id_and_user_id.
  destruct H as [Hno | [_ Hother]].
  - rewrite (Hno p Hin). reflexivity.
  - destruct (int_eq_text (p_id p) id) eqn:Hid; [|reflexivity].
    simpl. apply Z.eqb_neq. apply Hother; assumption.
Qed.

Lemma filter_none {A} (f : A -> bool) (l : list A) :
  (forall x, In x l -> f x = false) -> List.filter f l = [].
Proof.
  induction l as [|x l IH]; intros H; [reflexivity|]. simpl.
  rewrite (H x (or_introl eq_refl)). apply IH. intros y Hy. apply H. right. exact Hy.
Qed.

Lemma filter_all {A} (f : A -> bool) (l : list A) :
  (forall x, In x l -> f x = true) -> List.filter f l = l.
Proof.
  induction l as [|x l IH]; intros H; [reflexivity|]. simpl.
  rewrite (H x (or_introl eq_refl)). f_equal. apply IH. intros y Hy. apply H. right. exact Hy.
Qed.

Lemma map_unless {A} (f : A -> bool) (g : A -> A) (l : list A) :
  (forall x, In x l -> f x = false) ->
  List.map (fun x => if f x then g x else x) l = l.
Proof.
  induction l as [|x l IH]; intros H; [reflexivity|]. simpl.
  rewrite (H x (or_introl eq_refl)). f_equal. apply IH. intros y Hy. apply H. right. exact Hy.
Qed.

Lemma update_post_no_hit title content id user_id d t :
  posts d = Some t ->
  (forall p, In p (rows t) -> where_id_and_user_id id user_id p = false) ->
  update_post title content id user_id (Some d) = (Ok (mk_ok 0 0), Some d).
Proof.
  intros Hp Hno. unfold update_post, with_database. rewrite Hp.
  rewrite (filter_none _ _ Hno), (map_unless _ _ _ Hno).
  destruct d as [us ps]. simpl in Hp. subst ps. destruct t. reflexivity.
Qed.

Lemma delete_post_no_hit id user_id d t :
  posts d = Some t ->
  (forall p, In p (rows t) -> where_id_and_user_id id user_id p = false) ->
  delete_post id user_id (Some d) = (Ok (mk_ok 0 0), Some d).
Proof.
  intros Hp Hno. unfold delete_post, with_database. rewrite Hp.
  rewrite (filter_none _ _ Hno), filter_all.
  - destruct d as [us ps]. simpl in Hp. subst ps. destruct t. reflexivity.
  - intros p Hin. rewrite (Hno p Hin). reflexivity.
Qed.

(** C1. For an authenticated PUT or DELETE of a post, the effect on
    the store is that of the one statement with the predicate
    [id = ? AND user_id = ?] on the post id and the caller's account
    id; whenever that statement affects zero rows the answer is 404
    with error "Post not found or unauthorized"; and it affects zero
    rows, with that same answer and an unchanged store, both when no
    post has the id and when the post belongs to another account. *)
Theorem put_delete_zero_rows (e : env) (req : request) (st : store) (user : payload) :
  authMiddleware e req = Next user ->
  let upd := update_post (body_title req) (body_content req) (params_id req) (tk_id user) st in
  let del := delete_post (params_id req) (tk_id user) st in
  let answer := mk_response 404 (JObj [("error", JStr "Post not found or unauthorized")]) in
  (snd (router_put_post e req st) = snd upd /\
   snd (router_delete_post e req st) = snd del) /\
  (forall result, fst upd = Ok result -> affectedRows result = 0 ->
     fst (router_put_post e req st) = answer) /\
  (forall result, fst del = Ok result -> affectedRows result = 0 ->
     fst (router_delete_post e req st) = answer) /\
  (forall d t, st = Some d -> posts d = Some t ->
     no_such_post (params_id req) t \/ owned_by_another (params_id req) (tk_id user) t ->
     fst upd = Ok (mk_ok 0 0) /\ fst del = Ok (mk_ok 0 0) /\
     router_put_post e req st = (answer, st) /\
     router_delete_post e req st = (answer, st)).
Proof.
  intros Hauth upd del answer.
  unfold router_put_post, router_delete_post.
  rewrite !(protected_next _ _ _ _ _ Hauth). fold upd del.
  split; [split|split; [|split]].
  - destruct upd as [[r|err] st']; [|reflexivity].
    destruct (affectedRows r =? 0); reflexivity.
  - destruct del as [[r|err] st']; [|reflexivity].
    destruct (affectedRows r =? 0); reflexivity.
  - intros r Hr H0. destruct upd as [ru st']. simpl in Hr. subst ru.
    rewrite H0. reflexivity.
  - intros r Hr H0. destruct del as [rd st']. simpl in Hr. subst rd.
    rewrite H0. reflexivity.
  - intros d t -> Hp Hcause. subst upd del.
    pose proof (where_never_hits _ _ _ Hcause) as Hno.
    rewrite (update_post_no_hit _ _ _ _ _ _ Hp Hno).
    rewrite (delete_post_no_hit _ _ _ _ Hp Hno).
    repeat split; reflexivity.
Qed.

(** ** Reasoning about the steps of the bootstrap *)

Lemma triple_ret {A} (P : connection -> Prop) (a : A) Q :
  (forall c, P c -> Q (Ok a) c) -> triple P (boot_ret a) Q.
Proof. intros H c Hc. apply H. exact Hc. Qed.

Lemma triple_bind {A B} (P : connection -> Prop) (m : boot A) (k : A -> boot B)
    (R : result db_error A -> connection -> Prop) Q :
  triple P m R ->
  (forall a, triple (R (Ok a)) (k a) Q) ->
  (forall e c, R (Err e) c -> Q (Err e) c) ->
  triple P (boot_bind m k) Q.
Proof.
  intros Hm Hk He c Hc. specialize (Hm c Hc). unfold boot_bind.
  destruct (m c) as [[a|e] c']; simpl in Hm.
  - apply Hk. exact Hm.
  - apply He. exact Hm.
Qed.

Lemma triple_weaken {A} (P P' : connection -> Prop) (m : boot A)
    (Q Q' : result db_error A -> connection -> Prop) :
  triple P' m Q' ->
  (forall c, P c -> P' c) -> (forall r c, Q' r c -> Q r c) ->
  triple P m Q.
Proof. intros Hm HP HQ c Hc. apply HQ, Hm, HP, Hc. Qed.

Lemma triple_for_of {A} (I : connection -> Prop) (xs : list A) (f : A -> boot unit)
    (Q : result db_error unit -> connection -> Prop) :
  (forall x, In x xs -> triple I (f x) Q) ->
  (forall c, I c -> Q (Ok tt) c) ->
  (forall c, Q (Ok tt) c -> I c) ->
  triple I (for_of xs f) Q.
Proof.
  intros Hf HI HQ. induction xs as [|x xs IH]; simpl.
  - apply triple_ret. exact HI.
  - apply triple_bind with (R := Q).
    + apply Hf. left. reflexivity.
    + intros []. eapply triple_weaken.
      * apply IH. intros y Hy. apply Hf. right. exact Hy.
      * exact HQ.
      * auto.
    + auto.
Qed.

(** *** Stopping at the first failure *)

Lemma all_resolved_snoc log s :
  all_resolved log -> all_resolved (log ++ [(s, None)])%list.
Proof.
  intros H s' o Hin. apply in_app_iff in Hin as [Hin|[[= _ <-]|[]]].
  - exact (H _ _ Hin).
  - reflexivity.
Qed.

Lemma fail_stop_ret {A} (a : A) : fail_stop (boot_ret a).
Proof. apply triple_ret. auto. Qed.

Lemma fail_stop_bind {A B} (m : boot A) (k : A -> boot B) :
  fail_stop m -> (forall a, fail_stop (k a)) -> fail_stop (boot_bind m k).
Proof.
  intros Hm Hk. eapply triple_bind; [exact Hm| |auto].
  intros a. apply Hk.
Qed.

Lemma fail_stop_for_of {A} (xs : list A) (f : A -> boot unit) :
  (forall x, fail_stop (f x)) -> fail_stop (for_of xs f).
Proof.
  intros Hf. apply triple_for_of.
  - intros x _. apply Hf.
  - intros c Hc. exact Hc.
  - intros c Hc. exact Hc.
Qed.

Lemma fail_stop_query {A} be s (run : sql A) : fail_stop (query be s run).
Proof.
  intros c Hc. unfold query.
  destruct (query_fails be (length (conn_log c))); simpl.
  - exists (conn_log c), s. auto.
  - destruct (run (conn_store c)) as [[a|e] st']; simpl.
    + apply all_resolved_snoc. exact Hc.
    + exists (conn_log c), s. auto.
Qed.

Lemma fail_stop_hash be password rounds :
  fail_stop (hash_with_next_salt be password rounds).
Proof. intros c Hc. exact Hc. Qed.

Lemma fail_stop_try be : fail_stop (createTables_try be).
Proof.
  unfold createTables_try.
  repeat first
    [ apply fail_stop_ret
    | apply fail_stop_query
    | apply fail_stop_bind; [|intros ?] ].
  - destruct (_ =? 0); [|apply fail_stop_ret].
    apply fail_stop_for_of. intros u. unfold seed_user.
    repeat first
      [ apply fail_stop_ret | apply fail_stop_query | apply fail_stop_hash
      | apply fail_stop_bind; [|intros ?] ].
  - destruct (_ =? 0); [|apply fail_stop_ret].
    apply fail_stop_for_of. intros u. unfold seed_post.
    repeat first
      [ apply fail_stop_ret | apply fail_stop_query
      | apply fail_stop_bind; [|intros ?] ].
Qed.

Lemma failed_entry_is_last log i s e :
  log !! i = Some (s, Some e) ->
  forall e', failed_last e' log -> length log = S i /\ e' = e.
Proof.
  intros Hi e' (pre & s' & -> & Hpre).
  destruct (Nat.lt_ge_cases i (length pre)) as [Hlt|Hge].
  - rewrite lookup_app_l in Hi by exact Hlt.
    apply list_elem_of_lookup_2, list_elem_of_In in Hi.
    discriminate (Hpre _ _ Hi).
  - rewrite lookup_app_r in Hi by exact Hge.
    destruct (i - length pre)%nat as [|n] eqn:Hn; [|destruct n; discriminate].
    injection Hi as _ ->. rewrite length_app. simpl. split; [lia|reflexivity].
Qed.

(** C8. In a run of the bootstrap, a statement that fails is the
    last statement issued on the connection (no later step runs) and
    its error is what [createTables] rejects with; a rejected
    [createTables] ends the start-up of the server with that error
    instead of listening; and the connection, whenever one was made,
    is ended, on the path that resolves and on every path that
    rejects. *)
Theorem bootstrap_failure_policy (be : boot_env) (st : store) :
  (forall c i s e,
     conn (createTables be st) = Some c ->
     conn_log c !! i = Some (s, Some e) ->
     length (conn_log c) = S i /\ settled (createTables be st) = Err e) /\
  (forall e, settled (createTables be st) = Err e ->
     server_start be st = Crashed e /\
     (connect_fails be = true \/
      exists c, conn (createTables be st) = Some c /\ failed_last e (conn_log c))) /\
  (forall c, conn (createTables be st) = Some c -> conn_ended c = true) /\
  (conn (createTables be st) = None -> connect_fails be = true).
Proof.
  assert (Hpost : fail_stop_post
                    (fst (createTables_try be (mk_connection st [] false 0)))
                    (snd (createTables_try be (mk_connection st [] false 0))))
    by (apply fail_stop_try; intros ? ? []).
  unfold server_start, createTables.
  destruct (connect_fails be); simpl.
  - split; [|split; [|split]].
    + intros c i s e [=].
    + intros e [= <-]. split; [reflexivity|left; reflexivity].
    + intros c [=].
    + reflexivity.
  - destruct (createTables_try be (mk_connection st [] false 0)) as [r c'].
    simpl in *. split; [|split; [|split]].
    + intros c i s e [= <-] Hi. simpl in Hi.
      destruct r as [[]|e']; simpl in Hpost.
      * apply list_elem_of_lookup_2, list_elem_of_In in Hi.
        discriminate (Hpost _ _ Hi).
      * destruct (failed_entry_is_last _ _ _ _ Hi _ Hpost) as [Hlen ->].
        split; [exact Hlen|reflexivity].
    + intros e ->. split; [reflexivity|].
      right. eexists. split; [reflexivity|exact Hpost].
    + intros c [= <-]. reflexivity.
    + discriminate.
Qed.

(** *** What each statement does to the rows *)

Lemma triple_query {A} be s (run : sql A) (P : store -> Prop)
    (Q : result db_error A -> store -> Prop) :
  (forall st, P st -> Q (fst (run st)) (snd (run st))) ->
  (forall st, P st -> Q (Err PROTOCOL_CONNECTION_LOST) st) ->
  triple (fun c => P (conn_store c)) (query be s run)
    (fun r c => Q r (conn_store c)).
Proof.
  intros Hrun Hlost c Hc. unfold query.
  destruct (query_fails be (length (conn_log c))); simpl.
  - apply Hlost. exact Hc.
  - specialize (Hrun _ Hc). destruct (run (conn_store c)). exact Hrun.
Qed.

Lemma create_database_rows st :
  user_rows (snd (create_database st)) = user_rows st /\
  post_rows (snd (create_database st)) = post_rows st.
Proof. destruct st; split; reflexivity. Qed.

Lemma use_database_rows st : snd (use_database st) = st.
Proof. destruct st; reflexivity. Qed.

Lemma create_users_table_rows st :
  user_rows (snd (create_users_table st)) = user_rows st /\
  post_rows (snd (create_users_table st)) = post_rows st.
Proof. destruct st as [[[ut|] pt]|]; split; reflexivity. Qed.

Lemma create_posts_table_rows st :
  user_rows (snd (create_posts_table st)) = user_rows st /\
  post_rows (snd (create_posts_table st)) = post_rows st.
Proof. destruct st as [[[ut|] [pt|]]|]; split; reflexivity. Qed.

Lemma count_users_spec st :
  snd (count_users st) = st /\
  forall n, fst (count_users st) = Ok n -> n = Z.of_nat (length (user_rows st)).
Proof.
  destruct st as [[[ut|] pt]|]; split; try reflexivity; simpl;
    intros n [= <-]; reflexivity.
Qed.

Lemma count_posts_spec st :
  snd (count_posts st) = st /\
  forall n, fst (count_posts st) = Ok n -> n = Z.of_nat (length (post_rows st)).
Proof.
  destruct st as [[ut [pt|]]|]; split; try reflexivity; simpl;
    intros n [= <-]; reflexivity.
Qed.

Lemma insert_user_rows created username email password st :
  post_rows (snd (insert_user created username email password st)) = post_rows st /\
  match fst (insert_user created username email password st) with
  | Ok result =>
      user_rows (snd (insert_user created username email password st))
      = (user_rows st
           ++ [mk_user (insertId result) username email password created])%list
  | Err _ =>
      user_rows (snd (insert_user created username email password st)) = user_rows st
  end.
Proof.
  destruct st as [[[ut|] pt]|]; simpl; auto.
  destruct (existsb _ _); simpl; auto.
Qed.

Lemma insert_post_rows created title content user_id st :
  user_rows (snd (insert_post created title content user_id st)) = user_rows st /\
  match fst (insert_post created title content user_id st) with
  | Ok result =>
      post_rows (snd (insert_post created title content user_id st))
      = (post_rows st
           ++ [mk_post (insertId result) title content user_id created])%list
  | Err _ =>
      post_rows (snd (insert_post created title content user_id st)) = post_rows st
  end.
Proof.
  destruct st as [[[ut|] [pt|]]|]; simpl; auto.
  destruct (existsb _ _); simpl; auto.
Qed.

(** *** Accounts written by the bootstrap *)

Lemma old_or_seeded_same st0 st st' :
  user_rows st' = user_rows st -> old_or_seeded st0 st -> old_or_seeded st0 st'.
Proof. unfold old_or_seeded. intros ->. auto. Qed.

Lemma triple_query_rows {A} be s (run : sql A) st0 :
  (forall st, user_rows (snd (run st)) = user_rows st) ->
  triple (fun c => old_or_seeded st0 (conn_store c)) (query be s run)
    (fun _ c => old_or_seeded st0 (conn_store c)).
Proof.
  intros H.
  apply (triple_query be s run (old_or_seeded st0) (fun _ => old_or_seeded st0)).
  - intros st Hst. eapply old_or_seeded_same; [apply H|exact Hst].
  - auto.
Qed.

Lemma seed_user_old_or_seeded be st0 mu :
  In mu mockUsers ->
  triple (fun c => old_or_seeded st0 (conn_store c)) (seed_user be mu)
    (fun _ c => old_or_seeded st0 (conn_store c)).
Proof.
  intros Hmu c Hc. unfold seed_user, boot_bind, hash_with_next_salt, query. simpl.
  set (salt := boot_salts be (salts_drawn c)).
  destruct (query_fails be (length (conn_log c))); simpl; [exact Hc|].
  pose proof (insert_user_rows (boot_now be) (mu_username mu) (mu_email mu)
                (bcrypt_hash (mu_password mu) 10 salt) (conn_store c)) as [_ Hins].
  destruct (insert_user _ _ _ _ _) as [[result|e] st']; simpl in *.
  - intros row Hrow. rewrite Hins in Hrow.
    apply in_app_iff in Hrow as [Hrow|[<-|[]]]; [auto|].
    right. exists mu, salt. auto.
  - eapply old_or_seeded_same; eauto.
Qed.

Lemma createTables_try_old_or_seeded be st0 :
  triple (fun c => old_or_seeded st0 (conn_store c)) (createTables_try be)
    (fun _ c => old_or_seeded st0 (conn_store c)).
Proof.
  unfold createTables_try.
  repeat first
    [ apply triple_ret; solve [auto]
    | eapply triple_bind with (R := fun _ c => old_or_seeded st0 (conn_store c));
      [| intros ? | solve [auto] ] ].
  - apply triple_query_rows. apply create_database_rows.
  - apply triple_query_rows. intros st. rewrite use_database_rows. reflexivity.
  - apply triple_query_rows. apply create_users_table_rows.
  - apply triple_query_rows. apply create_posts_table_rows.
  - apply triple_query_rows. intros st. rewrite (proj1 (count_users_spec st)). reflexivity.
  - destruct (_ =? 0); [|apply triple_ret; auto].
    apply triple_for_of; auto. intros mu Hmu. apply seed_user_old_or_seeded, Hmu.
  - apply triple_query_rows. intros st. rewrite (proj1 (count_posts_spec st)). reflexivity.
  - destruct (_ =? 0); [|apply triple_ret; auto].
    apply triple_for_of; auto. intros mp _. unfold seed_post.
    eapply triple_bind with (R := fun _ c => old_or_seeded st0 (conn_store c));
      [| intros ?; apply triple_ret; auto | auto].
    apply triple_query_rows. intros st. apply insert_post_rows.
Qed.

Lemma store_after_old_or_seeded be st : old_or_seeded st (store_after be st).
Proof.
  unfold store_after, createTables.
  destruct (connect_fails be); simpl; [intros row; auto|].
  pose proof (createTables_try_old_or_seeded be st (mk_connection st [] false 0)) as H.
  destruct (createTables_try be _) as [r c]. simpl in *.
  apply H. intros row; auto.
Qed.

(** C6. A registration answered 201 has added exactly one account
    row, with the id it reports, whose password column is the hash of
    the submitted password, differs from that password, and verifies
    against it; and every account row that a run of the bootstrap has
    added is a seed account whose password column is the hash of the
    seed password, differs from it, and verifies against it. *)
Theorem stored_password_is_hash :
  (forall e req st,
     status (fst (router_post_register e req st)) = 201 ->
     exists row,
       user_rows (snd (router_post_register e req st)) = (user_rows st ++ [row])%list /\
       body_field "userId" (fst (router_post_register e req st)) = Some (JNum (u_id row)) /\
       u_username row = body_username req /\
       u_email row = body_email req /\
       u_password row = bcrypt_hash (body_password req) 10 (fresh_salt e) /\
       u_password row <> body_password req /\
       bcrypt_compare (body_password req) (u_password row) = true) /\
  (forall be st row,
     In row (user_rows (store_after be st)) -> ~ In row (user_rows st) ->
     exists mu salt,
       In mu mockUsers /\
       u_username row = mu_username mu /\
       u_email row = mu_email mu /\
       u_password row = bcrypt_hash (mu_password mu) 10 salt /\
       u_password row <> mu_password mu /\
       bcrypt_compare (mu_password mu) (u_password row) = true).
Proof.
  split.
  - intros e req st. unfold router_post_register.
    pose proof (insert_user_rows (now e) (body_username req) (body_email req)
                  (bcrypt_hash (body_password req) 10 (fresh_salt e)) st) as [_ Hins].
    destruct (insert_user _ _ _ _ _) as [[result|err] st']; simpl in *;
      [intros _|discriminate].
    eexists. split; [exact Hins|]. simpl.
    repeat split; auto using hash_opaque, compare_hash.
  - intros be st row Hin Hnew.
    destruct (store_after_old_or_seeded be st row Hin) as [Hold|Hseed];
      [contradiction|].
    destruct Hseed as (mu & salt & Hmu & Hu & He & Hp).
    exists mu, salt. rewrite Hp.
    repeat split; auto using hash_opaque, compare_hash.
Qed.

(** *** A run that resolves leaves both tables populated *)

Lemma triple_any {A} (P : connection -> Prop) (m : boot A) :
  triple P m (on_ok (fun _ _ => True)).
Proof. intros c _. destruct (fst (m c)); exact I. Qed.

Lemma triple_query_ok {A} be s (run : sql A) (P : store -> Prop) (Q : A -> store -> Prop) :
  (forall st a, P st -> fst (run st) = Ok a -> Q a (snd (run st))) ->
  triple (fun c => P (conn_store c)) (query be s run)
    (on_ok (fun a c => Q a (conn_store c))).
Proof.
  intros H c Hc. unfold query.
  destruct (query_fails be (length (conn_log c))); simpl; [exact I|].
  pose proof (fun a => H (conn_store c) a Hc) as H'.
  destruct (run (conn_store c)) as [[a|e] st']; simpl in *.
  - apply H'. reflexivity.
  - exact I.
Qed.

Lemma on_ok_err {A} (Q : A -> connection -> Prop) {B} (Q' : B -> connection -> Prop) :
  forall e c, on_ok Q (Err e) c -> on_ok Q' (Err e) c.
Proof. intros e c _. exact I. Qed.

Lemma seed_user_populates be mu :
  triple (fun _ => True) (seed_user be mu)
    (on_ok (fun _ c => user_rows (conn_store c) <> [])).
Proof.
  intros c _. unfold seed_user, boot_bind, hash_with_next_salt, query. simpl.
  destruct (query_fails be (length (conn_log c))); simpl; [exact I|].
  match goal with
  | |- context [insert_user ?a ?b ?d ?p ?st] =>
      pose proof (insert_user_rows a b d p st) as [_ Hins];
      destruct (insert_user a b d p st) as [[result|e] st']
  end; simpl in *; [|exact I].
  rewrite Hins. intros Hnil. apply app_eq_nil in Hnil as [_ [=]].
Qed.

Lemma seed_post_populates be mp :
  triple (fun c => user_rows (conn_store c) <> []) (seed_post be mp)
    (on_ok (fun _ c => user_rows (conn_store c) <> [] /\ post_rows (conn_store c) <> [])).
Proof.
  intros c Hc. unfold seed_post, boot_bind, query. simpl.
  destruct (query_fails be (length (conn_log c))); simpl; [exact I|].
  match goal with
  | |- context [insert_post ?a ?b ?d ?p ?st] =>
      pose proof (insert_post_rows a b d p st) as [Hus Hins];
      destruct (insert_post a b d p st) as [[result|e] st']
  end; simpl in *; [|exact I].
  rewrite Hus, Hins. split; [exact Hc|].
  intros Hnil. apply app_eq_nil in Hnil as [_ [=]].
Qed.

Lemma for_of_seed_users_populates be :
  triple (fun _ => True) (for_of mockUsers (seed_user be))
    (on_ok (fun _ c => user_rows (conn_store c) <> [])).
Proof.
  simpl. eapply triple_bind; [apply seed_user_populates| |apply on_ok_err].
  intros []. eapply triple_bind; [| |apply on_ok_err].
  - eapply triple_weaken;
      [apply seed_user_populates|intros; exact I|intros r c H; exact H].
  - intros []. apply triple_ret. auto.
Qed.

Lemma for_of_seed_posts_populates be :
  triple (fun c => user_rows (conn_store c) <> []) (for_of mockPosts (seed_post be))
    (on_ok (fun _ c => user_rows (conn_store c) <> [] /\ post_rows (conn_store c) <> [])).
Proof.
  simpl. eapply triple_bind; [apply seed_post_populates| |apply on_ok_err].
  intros [].
  repeat (eapply triple_bind;
          [ eapply triple_weaken;
            [apply seed_post_populates|intros c [H _]; exact H|intros r c H; exact H]
          | intros []
          | apply on_ok_err ]).
  apply triple_ret. auto.
Qed.

Lemma createTables_try_populates be :
  triple (fun _ => True) (createTables_try be)
    (on_ok (fun _ c => user_rows (conn_store c) <> [] /\ post_rows (conn_store c) <> [])).
Proof.
  unfold createTables_try.
  do 4 (eapply triple_bind; [apply triple_any|intros ?|apply on_ok_err]).
  eapply triple_bind;
    [apply (triple_query_ok be _ count_users (fun _ => True)
              (fun n st => n <> 0 -> user_rows st <> []))
    | intros n | apply on_ok_err].
  { intros st n _ Hn. destruct (count_users_spec st) as [-> Hc].
    rewrite (Hc n Hn). destruct (user_rows st); [intros []; reflexivity|discriminate]. }
  eapply triple_bind with
    (R := on_ok (fun _ c => user_rows (conn_store c) <> []));
    [| intros ? | apply on_ok_err].
  { destruct (Z.eqb_spec n 0) as [->|Hn].
    - eapply triple_weaken;
        [apply for_of_seed_users_populates|intros; exact I|intros r c H; exact H].
    - apply triple_ret. intros c Hc. apply Hc, Hn. }
  eapply triple_bind;
    [apply (triple_query_ok be _ count_posts (fun st => user_rows st <> [])
              (fun n st => user_rows st <> [] /\ (n <> 0 -> post_rows st <> [])))
    | intros m | apply on_ok_err].
  { intros st m Hu Hm. destruct (count_posts_spec st) as [-> Hc].
    split; [exact Hu|]. rewrite (Hc m Hm).
    destruct (post_rows st); [intros []; reflexivity|discriminate]. }
  eapply triple_bind with
    (R := on_ok (fun _ c => user_rows (conn_store c) <> []
                            /\ post_rows (conn_store c) <> []));
    [| intros ?; apply triple_ret; auto | apply on_ok_err].
  destruct (Z.eqb_spec m 0) as [->|Hm].
  - eapply triple_weaken;
      [apply for_of_seed_posts_populates|intros c [H _]; exact H|intros r c H; exact H].
  - apply triple_ret. intros c [Hu Hp]. split; [exact Hu|apply Hp, Hm].
Qed.

Lemma store_after_populated be st :
  settled (createTables be st) = Ok tt ->
  user_rows (store_after be st) <> [] /\ post_rows (store_after be st) <> [].
Proof.
  unfold store_after, createTables.
  destruct (connect_fails be); simpl; [discriminate|].
  pose proof (createTables_try_populates be (mk_connection st [] false 0) I) as H.
  destruct (createTables_try be _) as [r c]. simpl in *.
  intros ->. exact H.
Qed.

(** On a store with both tables populated, a run without injected
    failures changes nothing. *)
Lemma createTables_populated be st :
  healthy be -> user_rows st <> [] -> post_rows st <> [] ->
  settled (createTables be st) = Ok tt /\ store_after be st = st.
Proof.
  intros [Hc Hq] Hu Hp. unfold store_after, createTables. rewrite Hc.
  destruct st as [[[[[|u us] au]|] [[[|p ps] ap]|]]|]; try contradiction.
  unfold createTables_try, boot_bind, query, count_rows. simpl.
  repeat (rewrite Hq; simpl). split; reflexivity.
Qed.

(** With populated accounts that include the owners the seed posts
    name, and no posts, a run without injected failures inserts the
    seed posts and nothing else. *)
Lemma createTables_seeds_posts_only be st :
  healthy be -> user_rows st <> [] -> post_rows st = [] ->
  (exists u, In u (user_rows st) /\ u_id u = 1) ->
  (exists u, In u (user_rows st) /\ u_id u = 2) ->
  settled (createTables be st) = Ok tt /\
  user_rows (store_after be st) = user_rows st /\
  List.map (fun p => (p_title p, p_content p, p_user_id p)) (post_rows (store_after be st))
  = List.map (fun m => (mp_title m, mp_content m, mp_user_id m)) mockPosts.
Proof.
  intros [Hc Hq] Hu Hp H1 H2. unfold store_after, createTables. rewrite Hc.
  destruct st as [[[[ur au]|] ps]|]; try contradiction. simpl in Hu, H1, H2.
  assert (E1 : existsb (fun u => u_id u =? 1) ur = true).
  { apply existsb_exists. destruct H1 as (u & Hin & Hid). exists u.
    split; [exact Hin|apply Z.eqb_eq, Hid]. }
  assert (E2 : existsb (fun u => u_id u =? 2) ur = true).
  { apply existsb_exists. destruct H2 as (u & Hin & Hid). exists u.
    split; [exact Hin|apply Z.eqb_eq, Hid]. }
  assert (En : (count_rows (mk_table ur au) =? 0) = false).
  { destruct ur; [contradiction|reflexivity]. }
  destruct ps as [[pr ap]|]; simpl in Hp; [subst pr|];
    unfold createTables_try, boot_bind, query, seed_post; simpl;
    repeat (first [rewrite Hq | rewrite En | rewrite E1 | rewrite E2
                  | progress unfold count_rows, boot_bind, query, seed_post,
                      boot_ret, insert_post, with_database]; simpl);
    repeat split; reflexivity.
Qed.

(** C7 (as amended). A run of the bootstrap that resolves leaves a
    store on which a second run, without injected failures, resolves
    too and changes nothing: no row is added and no table created.
    Seeding of accounts and of posts is gated separately, each on its
    own table being empty: on a store whose accounts are not empty
    and include the owners the seed posts name (ids 1 and 2), and
    whose posts are empty, a run inserts the seed posts and leaves the
    accounts as they are. *)
Theorem bootstrap_idempotent_and_gated :
  (forall be be' st,
     settled (createTables be st) = Ok tt -> healthy be' ->
     settled (createTables be' (store_after be st)) = Ok tt /\
     store_after be' (store_after be st) = store_after be st) /\
  (forall be st,
     healthy be -> user_rows st <> [] -> post_rows st = [] ->
     (exists u, In u (user_rows st) /\ u_id u = 1) ->
     (exists u, In u (user_rows st) /\ u_id u = 2) ->
     settled (createTables be st) = Ok tt /\
     user_rows (store_after be st) = user_rows st /\
     List.map (fun p => (p_title p, p_content p, p_user_id p))
       (post_rows (store_after be st))
     = List.map (fun m => (mp_title m, mp_content m, mp_user_id m)) mockPosts).
Proof.
  split.
  - intros be be' st Hok Hh.
    destruct (store_after_populated be st Hok) as [Hu Hp].
    apply createTables_populated; assumption.
  - intros be st. apply createTables_seeds_posts_only.
Qed.

(** * The remaining routes, and how the routes compose *)

(** *** [routes/posts.js]: the public reads *)

(** How a [TIMESTAMP] value of a row is serialized in a JSON body. *)
Variable timestamp_json : Z -> json.

(** [p] is at least as new as [q]. *)
Definition newer_or_equal (p q : post_row) : Prop := p_created_at q <= p_created_at p.

#[local] Instance newer_or_equal_dec (p q : post_row) : Decision (newer_or_equal p q) :=
  Z_le_dec (p_created_at q) (p_created_at p).

(** [SELECT * FROM posts ORDER BY created_at DESC].  The order among
    rows of equal [created_at] is the engine's; the sort here keeps
    them in table order. *)
Definition select_posts : sql (list post_row) :=
  with_database (fun d =>
    match posts d with
    | None => (Err ER_NO_SUCH_TABLE, d)
    | Some t => (Ok (merge_sort newer_or_equal (rows t)), d)
    end).

(** [SELECT * FROM posts WHERE id = ?] *)
Definition select_post_by_id (id : string) : sql (list post_row) :=
  with_database (fun d =>
    match posts d with
    | None => (Err ER_NO_SUCH_TABLE, d)
    | Some t => (Ok (List.filter (fun p => int_eq_text (p_id p) id) (rows t)), d)
    end).

(** A row of [posts] as the JSON object [res.json] sends. *)
Definition post_json (p : post_row) : json :=
  JObj [("id", JNum (p_id p)); ("title", JStr (p_title p));
        ("content", JStr (p_content p)); ("user_id", JNum (p_user_id p));
        ("created_at", timestamp_json (p_created_at p))].

(** [router.get("/")]: [inr items] is the answer 200 whose body is the
    JSON array of [items]; [inl r] is the answer [r]. *)
Definition router_get_posts (e : env) (req : request) (st : store)
    : (response + list json) * store :=
  match select_posts st with
  | (Ok posts, st') => (inr (List.map post_json posts), st')
  | (Err error, st') => (inl (server_error error), st')
  end.

(** [router.get("/:id")] *)
Definition router_get_post : handler :=
  fun e req st =>
    match select_post_by_id (params_id req) st with
    | (Ok [], st') => (res_status_json 404 (error_body "Post not found"), st')
    | (Ok (p :: _), st') => (res_json (post_json p), st')
    | (Err error, st') => (server_error error, st')
    end.

(** *** Invariants of the store *)

(** The key column of a table: no two rows share a key, and every key
    is below the next one the table will draw. *)
Definition keyed {R} (key : R -> Z) (t : table R) : Prop :=
  List.NoDup (List.map key (rows t)) /\
  Forall (fun r => key r < auto_increment t) (rows t).

Definition keyed_if_present {R} (key : R -> Z) (t : option (table R)) : Prop :=
  match t with
  | Some t => keyed key t
  | None => True
  end.

(** [id] is a primary key drawn from [AUTO_INCREMENT] in both tables. *)
Definition primary_keys (st : store) : Prop :=
  match st with
  | Some d => keyed_if_present u_id (users d) /\ keyed_if_present p_id (posts d)
  | None => True
  end.

(** [FOREIGN KEY (user_id) REFERENCES users(id)]: the owner of every
    post is an account in the store. *)
Definition references_hold (st : store) : Prop :=
  forall p, In p (post_rows st) -> exists u, In u (user_rows st) /\ u_id u = p_user_id p.

(** [username] and [email] are [UNIQUE]: no row repeats the username or
    the email of a row before it. *)
Definition unique_accounts (st : store) : Prop :=
  ForallOrdPairs
    (fun u v => collate_eq (u_username u) (u_username v) = false /\
                collate_eq (u_email u) (u_email v) = false)
    (user_rows st).

(** A property of the store that every statement of the source keeps. *)
Definition kept_by_statements (I : store -> Prop) : Prop :=
  (forall st, I st -> I (snd (create_database st))) /\
  (forall st, I st -> I (snd (create_users_table st))) /\
  (forall st, I st -> I (snd (create_posts_table st))) /\
  (forall created username email password st,
     I st -> I (snd (insert_user created username email password st))) /\
  (forall created title content user_id st,
     I st -> I (snd (insert_post created title content user_id st))) /\
  (forall title content id user_id st,
     I st -> I (snd (update_post title content id user_id st))) /\
  (forall id user_id st, I st -> I (snd (delete_post id user_id st))).

(** A property of the store that every route and the bootstrap keep. *)
Definition kept_everywhere (I : store -> Prop) : Prop :=
  (forall e req st, I st ->
     I (snd (router_post_register e req st)) /\
     I (snd (router_post_login e req st)) /\
     I (snd (router_get_profile e req st)) /\
     I (snd (router_get_posts e req st)) /\
     I (snd (router_get_post e req st)) /\
     I (snd (router_post_post e req st)) /\
     I (snd (router_put_post e req st)) /\
     I (snd (router_delete_post e req st))) /\
  (forall be st, I st -> I (store_after be st)).

(** [text] is the text of the id [id] among the posts of [st]: the
    comparison [id = ?] holds for the posts with that id and no
    others. *)
Definition names_post (text : string) (id : Z) (st : store) : Prop :=
  forall p, In p (post_rows st) -> (int_eq_text (p_id p) text = true <-> p_id p = id).

(** ** The reads *)

Lemma select_unchanged {A} (f : database -> result db_error A * database) st :
  (forall d, snd (f d) = d) -> snd (with_database f st) = st.
Proof.
  intros H. unfold with_database. destruct st as [d|]; [|reflexivity].
  specialize (H d). destruct (f d) as [r d']. simpl in *. subst d'. reflexivity.
Qed.

Lemma select_posts_store st : snd (select_posts st) = st.
Proof. apply select_unchanged. intros d. destruct (posts d); reflexivity. Qed.

Lemma select_post_by_id_store id st : snd (select_post_by_id id st) = st.
Proof. apply select_unchanged. intros d. destruct (posts d); reflexivity. Qed.

Lemma select_profile_store id st : snd (select_profile id st) = st.
Proof. apply select_unchanged. intros d. destruct (users d); reflexivity. Qed.

Lemma router_post_login_store e req st : snd (router_post_login e req st) = st.
Proof.
  unfold router_post_login.
  destruct (select_user_by_email (body_email req) st) as [r st'] eqn:Hsel.
  apply select_user_by_email_store in Hsel. subst st'.
  destruct r as [[|user rest]|err]; try reflexivity.
  destruct (negb _); reflexivity.
Qed.

Lemma router_get_profile_store e req st : snd (router_get_profile e req st) = st.
Proof.
  unfold router_get_profile, protected.
  destruct (authMiddleware e req) as [user|r]; [|reflexivity].
  pose proof (select_profile_store (tk_id user) st) as H.
  destruct (select_profile (tk_id user) st) as [[rs|err] st']; simpl in *; exact H.
Qed.

Lemma router_get_posts_store e req st : snd (router_get_posts e req st) = st.
Proof.
  unfold router_get_posts. pose proof (select_posts_store st) as H.
  destruct (select_posts st) as [[ps|err] st']; simpl in *; exact H.
Qed.

Lemma router_get_post_store e req st : snd (router_get_post e req st) = st.
Proof.
  unfold router_get_post. pose proof (select_post_by_id_store (params_id req) st) as H.
  destruct (select_post_by_id (params_id req) st) as [[[|p ps]|err] st']; simpl in *; exact H.
Qed.

(** X1. The routes that only read (login, profile, the list of posts
    and the post by id) leave the store exactly as it was, for every
    request, whatever they answer. *)
Theorem reads_leave_store (e : env) (req : request) (st : store) :
  snd (router_post_login e req st) = st /\
  snd (router_get_profile e req st) = st /\
  snd (router_get_posts e req st) = st /\
  snd (router_get_post e req st) = st.
Proof.
  auto using router_post_login_store, router_get_profile_store,
    router_get_posts_store, router_get_post_store.
Qed.

#[local] Instance newer_or_equal_total : Total newer_or_equal.
Proof. intros p q. unfold newer_or_equal. lia. Qed.

#[local] Instance newer_or_equal_trans : Transitive newer_or_equal.
Proof. intros p q r. unfold newer_or_equal. lia. Qed.

(** X2. With the posts table in place, the list of posts answers 200
    with an array that holds every post of the table exactly once (the
    rows sent are a permutation of the table's) in an order in which no
    post comes before a newer one; no token is asked for. *)
Theorem get_posts_newest_first (e : env) (req : request) (d : database) (t : table post_row) :
  posts d = Some t ->
  exists sent,
    router_get_posts e req (Some d) = (inr (List.map post_json sent), Some d) /\
    Permutation sent (rows t) /\
    StronglySorted (fun p q => p_created_at q <= p_created_at p) sent.
Proof.
  intros Hp. exists (merge_sort newer_or_equal (rows t)). split; [|split].
  - unfold router_get_posts, select_posts, with_database. rewrite Hp. reflexivity.
  - apply merge_sort_Permutation.
  - apply (StronglySorted_merge_sort newer_or_equal).
Qed.

Lemma filter_first {A} (f : A -> bool) (l : list A) :
  match List.filter f l with
  | [] => forall x, In x l -> f x = false
  | y :: _ => exists pre post, l = (pre ++ y :: post)%list /\ f y = true /\
                               forall x, In x pre -> f x = false
  end.
Proof.
  induction l as [|x l IH]; simpl; [intros x []|].
  destruct (f x) eqn:Hx.
  - exists [], l. repeat split; [exact Hx|intros y []].
  - destruct (List.filter f l) as [|y ys].
    + intros z [<-|Hz]; [exact Hx|apply IH, Hz].
    + destruct IH as (pre & post & -> & Hy & Hpre).
      exists (x :: pre), post. repeat split; [exact Hy|].
      intros z [<-|Hz]; [exact Hx|apply Hpre, Hz].
Qed.

(** X3. With the posts table in place, the post by id answers 404 with
    error "Post not found" exactly when no post of the table matches
    the id of the request, and otherwise 200 with the first post of the
    table that matches it. *)
Theorem get_post_found_or_404 (e : env) (req : request) (d : database) (t : table post_row) :
  posts d = Some t ->
  ((forall p, In p (rows t) -> int_eq_text (p_id p) (params_id req) = false) ->
   router_get_post e req (Some d)
   = (mk_response 404 (JObj [("error", JStr "Post not found")]), Some d)) /\
  (forall pre p post,
     rows t = (pre ++ p :: post)%list ->
     int_eq_text (p_id p) (params_id req) = true ->
     (forall q, In q pre -> int_eq_text (p_id q) (params_id req) = false) ->
     router_get_post e req (Some d) = (mk_response 200 (post_json p), Some d)) /\
  (status (fst (router_get_post e req (Some d))) = 404 <->
   forall p, In p (rows t) -> int_eq_text (p_id p) (params_id req) = false).
Proof.
  intros Hp.
  assert (Hrun : router_get_post e req (Some d)
                 = match List.filter (fun p => int_eq_text (p_id p) (params_id req)) (rows t) with
                   | [] => (mk_response 404 (JObj [("error", JStr "Post not found")]), Some d)
                   | p :: _ => (mk_response 200 (post_json p), Some d)
                   end).
  { unfold router_get_post, select_post_by_id, with_database. rewrite Hp.
    destruct (List.filter _ _); reflexivity. }
  rewrite Hrun. split; [|split].
  - intros Hno. rewrite (filter_none _ _ Hno). reflexivity.
  - intros pre p post Hrows Hhit Hpre. rewrite Hrows.
    rewrite List.filter_app, (filter_none _ _ Hpre). simpl. rewrite Hhit. reflexivity.
  - pose proof (filter_first (fun p => int_eq_text (p_id p) (params_id req)) (rows t)) as H.
    destruct (List.filter _ _) as [|y ys]; simpl.
    + split; [intros _; exact H|reflexivity].
    + split; [discriminate|].
      intros Hno. destruct H as (pre & post & Hrows & Hy & _).
      rewrite Hno in Hy; [discriminate|]. rewrite Hrows. apply in_elt.
Qed.

(** ** What the writes do to the rows *)

Lemma update_post_rows title content id user_id st :
  user_rows (snd (update_post title content id user_id st)) = user_rows st /\
  post_rows (snd (update_post title content id user_id st))
  = List.map (fun p => if where_id_and_user_id id user_id p
                       then mk_post (p_id p) title content (p_user_id p) (p_created_at p)
                       else p) (post_rows st).
Proof. destruct st as [[ut [pt|]]|]; split; reflexivity. Qed.

Lemma delete_post_rows id user_id st :
  user_rows (snd (delete_post id user_id st)) = user_rows st /\
  post_rows (snd (delete_post id user_id st))
  = List.filter (fun p => negb (where_id_and_user_id id user_id p)) (post_rows st).
Proof. destruct st as [[ut [pt|]]|]; split; reflexivity. Qed.

(** ** Properties kept by every statement are kept by every route and
    by the bootstrap *)

Lemma seed_user_keeps (I : store -> Prop) be mu :
  (forall created username email password st,
     I st -> I (snd (insert_user created username email password st))) ->
  triple (fun c => I (conn_store c)) (seed_user be mu) (fun _ c => I (conn_store c)).
Proof.
  intros Hins c Hc. unfold seed_user, boot_bind, hash_with_next_salt, query. simpl.
  destruct (query_fails be (length (conn_log c))); simpl; [exact Hc|].
  match goal with
  | |- context [insert_user ?a ?b ?d ?p ?st] =>
      pose proof (Hins a b d p st Hc) as H;
      destruct (insert_user a b d p st) as [[result|err] st']
  end; exact H.
Qed.

Lemma seed_post_keeps (I : store -> Prop) be mp :
  (forall created title content user_id st,
     I st -> I (snd (insert_post created title content user_id st))) ->
  triple (fun c => I (conn_store c)) (seed_post be mp) (fun _ c => I (conn_store c)).
Proof.
  intros Hins c Hc. unfold seed_post, boot_bind, query. simpl.
  destruct (query_fails be (length (conn_log c))); simpl; [exact Hc|].
  match goal with
  | |- context [insert_post ?a ?b ?d ?p ?st] =>
      pose proof (Hins a b d p st Hc) as H;
      destruct (insert_post a b d p st) as [[result|err] st']
  end; exact H.
Qed.

Lemma triple_query_keeps {A} (I : store -> Prop) be s (run : sql A) :
  (forall st, I st -> I (snd (run st))) ->
  triple (fun c => I (conn_store c)) (query be s run) (fun _ c => I (conn_store c)).
Proof.
  intros H. apply (triple_query be s run I (fun _ => I)); [exact H|auto].
Qed.

Lemma createTables_try_keeps (I : store -> Prop) be :
  kept_by_statements I ->
  triple (fun c => I (conn_store c)) (createTables_try be) (fun _ c => I (conn_store c)).
Proof.
  intros (Hdb & Hut & Hpt & Hiu & Hip & _ & _). unfold createTables_try.
  repeat first
    [ apply triple_ret; solve [auto]
    | eapply triple_bind with (R := fun _ c => I (conn_store c));
      [| intros ? | solve [auto] ] ].
  - apply triple_query_keeps, Hdb.
  - apply triple_query_keeps. intros st. rewrite use_database_rows. auto.
  - apply triple_query_keeps, Hut.
  - apply triple_query_keeps, Hpt.
  - apply triple_query_keeps. intros st. rewrite (proj1 (count_users_spec st)). auto.
  - destruct (_ =? 0); [|apply triple_ret; auto].
    apply triple_for_of; auto. intros mu _. apply seed_user_keeps, Hiu.
  - apply triple_query_keeps. intros st. rewrite (proj1 (count_posts_spec st)). auto.
  - destruct (_ =? 0); [|apply triple_ret; auto].
    apply triple_for_of; auto. intros mp _. apply seed_post_keeps, Hip.
Qed.

Lemma kept_by_statements_everywhere (I : store -> Prop) :
  kept_by_statements I -> kept_everywhere I.
Proof.
  intros HI. pose proof HI as (_ & _ & _ & Hiu & Hip & Hup & Hdel). split.
  - intros e req st Hst.
    rewrite router_post_login_store, router_get_profile_store,
      router_get_posts_store, router_get_post_store.
    repeat match goal with |- _ /\ _ => split end; try exact Hst.
    + unfold router_post_register.
      match goal with
      | |- context [insert_user ?a ?b ?d ?p st] =>
          pose proof (Hiu a b d p st Hst) as H;
          destruct (insert_user a b d p st) as [[result|err] st']
      end; exact H.
    + unfold router_post_post, protected.
      destruct (authMiddleware e req) as [user|r]; [|exact Hst].
      match goal with
      | |- context [insert_post ?a ?b ?d ?p st] =>
          pose proof (Hip a b d p st Hst) as H;
          destruct (insert_post a b d p st) as [[result|err] st']
      end; exact H.
    + unfold router_put_post, protected.
      destruct (authMiddleware e req) as [user|r]; [|exact Hst].
      match goal with
      | |- context [update_post ?a ?b ?d ?p st] =>
          pose proof (Hup a b d p st Hst) as H;
          destruct (update_post a b d p st) as [[result|err] st']
      end; [destruct (affectedRows result =? 0)|]; exact H.
    + unfold router_delete_post, protected.
      destruct (authMiddleware e req) as [user|r]; [|exact Hst].
      match goal with
      | |- context [delete_post ?a ?b st] =>
          pose proof (Hdel a b st Hst) as H;
          destruct (delete_post a b st) as [[result|err] st']
      end; [destruct (affectedRows result =? 0)|]; exact H.
  - intros be st Hst. unfold store_after, createTables.
    destruct (connect_fails be); simpl; [exact Hst|].
    pose proof (createTables_try_keeps I be HI (mk_connection st [] false 0) Hst) as H.
    destruct (createTables_try be _) as [r c]. exact H.
Qed.

(** *** Primary keys *)

Lemma keyed_append {T} (key : T -> Z) (l : list T) (a : Z) (r : T) :
  key r = a -> keyed key (mk_table l a) -> keyed key (mk_table (l ++ [r]) (a + 1)).
Proof.
  unfold keyed. simpl. intros Hr [Hnd Hlt]. split.
  - rewrite (List.map_app key l [r]). simpl. apply List.NoDup_app.
    + exact Hnd.
    + constructor; [intros []|constructor].
    + intros k Hk [<-|[]]. apply in_map_iff in Hk as (x & Hx & Hin).
      rewrite List.Forall_forall in Hlt. specialize (Hlt x Hin). lia.
  - apply List.Forall_app. split.
    + eapply List.Forall_impl; [|exact Hlt]. simpl. intros x Hx. lia.
    + repeat constructor. lia.
Qed.

Lemma keyed_bump {T} (key : T -> Z) (l : list T) (a : Z) :
  keyed key (mk_table l a) -> keyed key (mk_table l (a + 1)).
Proof.
  unfold keyed. simpl. intros [Hnd Hlt]. split; [exact Hnd|].
  eapply List.Forall_impl; [|exact Hlt]. simpl. intros x Hx. lia.
Qed.

Lemma keyed_map {T} (key : T -> Z) (g : T -> T) (l : list T) (a : Z) :
  (forall r, key (g r) = key r) ->
  keyed key (mk_table l a) -> keyed key (mk_table (List.map g l) a).
Proof.
  unfold keyed. simpl. intros Hg [Hnd Hlt]. split.
  - rewrite List.map_map. rewrite (List.map_ext _ key); [exact Hnd|exact Hg].
  - apply List.Forall_forall. intros x Hx. apply in_map_iff in Hx as (y & <- & Hy).
    rewrite Hg. rewrite List.Forall_forall in Hlt. apply Hlt, Hy.
Qed.

Lemma keyed_filter {T} (key : T -> Z) (f : T -> bool) (l : list T) (a : Z) :
  keyed key (mk_table l a) -> keyed key (mk_table (List.filter f l) a).
Proof.
  unfold keyed. simpl. intros [Hnd Hlt]. split.
  - clear Hlt. induction l as [|x l IH]; simpl; [constructor|].
    inversion Hnd as [|k ks Hx Hnd']. subst.
    destruct (f x); simpl; [|apply IH, Hnd'].
    constructor; [|apply IH, Hnd'].
    intros Hin. apply Hx. apply in_map_iff in Hin as (y & Hy & Hin).
    apply in_map_iff. exists y. split; [exact Hy|].
    apply List.filter_In in Hin. apply Hin.
  - apply List.Forall_forall. intros x Hx. apply List.filter_In in Hx as [Hx _].
    rewrite List.Forall_forall in Hlt. apply Hlt, Hx.
Qed.

Lemma keyed_empty {T} (key : T -> Z) : keyed key (@empty_table T).
Proof. split; constructor. Qed.

Lemma primary_keys_insert_post created title content user_id st :
  primary_keys st -> primary_keys (snd (insert_post created title content user_id st)).
Proof.
  destruct st as [[[ut|] [[pr ap]|]]|]; intros H; simpl in *; auto.
  destruct H as [Hu Hp]. destruct (existsb _ _); simpl; split; auto.
  - apply keyed_append; [reflexivity|exact Hp].
  - apply keyed_bump, Hp.
Qed.

Lemma primary_keys_statements : kept_by_statements primary_keys.
Proof.
  repeat match goal with |- kept_by_statements _ => unfold kept_by_statements
                    | |- _ /\ _ => split end.
  - intros [d|] H; simpl; auto.
  - intros [[[ut|] pt]|] H; simpl in *; auto.
    destruct H as [_ H]. split; [apply keyed_empty|exact H].
  - intros [[[ut|] [pt|]]|] H; simpl in *; auto.
    destruct H as [H _]. split; [exact H|apply keyed_empty].
  - intros created username email password [[[[ur au]|] pt]|] H; simpl in *; auto.
    destruct H as [Hu Hp]. destruct (existsb _ _); simpl; split; auto.
    + apply keyed_bump, Hu.
    + apply keyed_append; [reflexivity|exact Hu].
  - intros created title content user_id st. apply primary_keys_insert_post.
  - intros title content id user_id [[ut [[pr ap]|]]|] H; simpl in *; auto.
    destruct H as [Hu Hp]. split; [exact Hu|].
    apply keyed_map; [|exact Hp]. intros r. destruct (where_id_and_user_id _ _ _); reflexivity.
  - intros id user_id [[ut [[pr ap]|]]|] H; simpl in *; auto.
    destruct H as [Hu Hp]. split; [exact Hu|]. apply keyed_filter, Hp.
Qed.

(** X4. Primary keys: if in each table no two rows share an id and
    every id is below the table's next AUTO_INCREMENT value, then the
    same holds after any route has handled any request and after any
    run of the bootstrap, resolved or rejected. *)
Theorem primary_keys_kept : kept_everywhere primary_keys.
Proof. apply kept_by_statements_everywhere, primary_keys_statements. Qed.

(** *** Foreign keys *)

Lemma references_hold_from st st' :
  (forall u, In u (user_rows st) -> In u (user_rows st')) ->
  (forall p, In p (post_rows st') ->
     exists q, In q (post_rows st) /\ p_user_id q = p_user_id p) ->
  references_hold st -> references_hold st'.
Proof.
  intros Hu Hp H p Hin. destruct (Hp p Hin) as (q & Hq & Hown).
  destruct (H q Hq) as (u & Hu' & Hid). exists u. split; [auto|congruence].
Qed.

Lemma references_hold_same st st' :
  user_rows st' = user_rows st -> post_rows st' = post_rows st ->
  references_hold st -> references_hold st'.
Proof.
  intros Hu Hp. apply references_hold_from.
  - rewrite Hu. auto.
  - rewrite Hp. eauto.
Qed.

Lemma insert_post_owner created title content user_id st result :
  fst (insert_post created title content user_id st) = Ok result ->
  exists u, In u (user_rows st) /\ u_id u = user_id.
Proof.
  destruct st as [[[ut|] [pt|]]|]; simpl; try discriminate.
  destruct (existsb _ _) eqn:Hex; [|discriminate]. intros _.
  apply existsb_exists in Hex as (u & Hin & Hid). exists u.
  split; [exact Hin|apply Z.eqb_eq, Hid].
Qed.

Lemma references_hold_statements : kept_by_statements references_hold.
Proof.
  unfold kept_by_statements. repeat match goal with |- _ /\ _ => split end.
  - intros st. apply references_hold_same; apply create_database_rows.
  - intros st. apply references_hold_same; apply create_users_table_rows.
  - intros st. apply references_hold_same; apply create_posts_table_rows.
  - intros created username email password st.
    pose proof (insert_user_rows created username email password st) as [Hp Hu].
    apply references_hold_from.
    + intros u Hin. destruct (fst (insert_user _ _ _ _ _)); rewrite Hu; [|exact Hin].
      apply in_app_iff. left. exact Hin.
    + rewrite Hp. eauto.
  - intros created title content user_id st H.
    pose proof (insert_post_rows created title content user_id st) as [Hu Hp].
    pose proof (insert_post_owner created title content user_id st) as Hown.
    destruct (fst (insert_post _ _ _ _ _)) as [result|err].
    + intros p Hin. rewrite Hu. rewrite Hp in Hin.
      apply in_app_iff in Hin as [Hin|[<-|[]]]; [apply H, Hin|].
      simpl. apply (Hown result). reflexivity.
    + revert H. apply references_hold_same; assumption.
  - intros title content id user_id st.
    pose proof (update_post_rows title content id user_id st) as [Hu Hp].
    apply references_hold_from.
    + rewrite Hu. auto.
    + rewrite Hp. intros p Hin. apply in_map_iff in Hin as (q & <- & Hq).
      exists q. split; [exact Hq|]. destruct (where_id_and_user_id _ _ _); reflexivity.
  - intros id user_id st.
    pose proof (delete_post_rows id user_id st) as [Hu Hp].
    apply references_hold_from.
    + rewrite Hu. auto.
    + rewrite Hp. intros p Hin. apply List.filter_In in Hin as [Hin _]. eauto.
Qed.

(** X5. Foreign keys: if the owner of every post is an account in the
    store, the same holds after any route has handled any request and
    after any run of the bootstrap: no route removes an account, a post
    is only inserted for an account that exists, and an update keeps
    the owner. *)
Theorem references_kept : kept_everywhere references_hold.
Proof. apply kept_by_statements_everywhere, references_hold_statements. Qed.

(** *** Unique usernames and emails *)

Lemma ForallOrdPairs_snoc {A} (R : A -> A -> Prop) (l : list A) (x : A) :
  ForallOrdPairs R l -> Forall (fun y => R y x) l -> ForallOrdPairs R (l ++ [x]).
Proof.
  induction 1 as [|a l Ha Hl IH]; intros Hx; simpl.
  - repeat constructor.
  - inversion Hx as [|? ? Hax Hlx]. subst. constructor.
    + apply List.Forall_app. split; [exact Ha|repeat constructor; exact Hax].
    + apply IH, Hlx.
Qed.

Lemma unique_accounts_same st st' :
  user_rows st' = user_rows st -> unique_accounts st -> unique_accounts st'.
Proof. unfold unique_accounts. intros ->. auto. Qed.

Lemma unique_accounts_statements : kept_by_statements unique_accounts.
Proof.
  unfold kept_by_statements. repeat match goal with |- _ /\ _ => split end.
  - intros st. apply unique_accounts_same, create_database_rows.
  - intros st. apply unique_accounts_same, create_users_table_rows.
  - intros st. apply unique_accounts_same, create_posts_table_rows.
  - intros created username email password [[[[ur au]|] pt]|]; simpl; auto.
    unfold unique_accounts. simpl. destruct (existsb _ _) eqn:Hex; simpl; [auto|].
    intros H. apply ForallOrdPairs_snoc; [exact H|].
    apply List.Forall_forall. intros u Hin. simpl.
    apply not_true_iff_false in Hex.
    destruct (duplicates username email u) eqn:Hd.
    + exfalso. apply Hex. apply existsb_exists. eauto.
    + apply orb_false_iff in Hd. exact Hd.
  - intros created title content user_id st.
    apply unique_accounts_same, insert_post_rows.
  - intros title content id user_id st.
    apply unique_accounts_same, update_post_rows.
  - intros id user_id st. apply unique_accounts_same, delete_post_rows.
Qed.

(** X6. Unique accounts: if no account repeats the username or the
    email of an account stored before it (equality being that of the
    column's collation), the same holds after any route has handled any
    request and after any run of the bootstrap. *)
Theorem unique_accounts_kept : kept_everywhere unique_accounts.
Proof. apply kept_by_statements_everywhere, unique_accounts_statements. Qed.

(** ** Creating, updating and deleting posts *)


Lemma filter_by_key {T} (key : T -> Z) (f : T -> bool) (l : list T) (x : T) :
  List.NoDup (List.map key l) -> In x l ->
  (forall y, In y l -> (f y = true <-> key y = key x)) ->
  List.filter f l = [x].
Proof.
  induction l as [|y l IH]; intros Hnd Hin Hf; [destruct Hin|].
  simpl in Hnd. inversion Hnd as [|k ks Hy Hnd']. subst. simpl.
  destruct Hin as [->|Hin].
  - rewrite (proj2 (Hf x (or_introl eq_refl)) eq_refl). f_equal.
    apply filter_none. intros z Hz.
    destruct (f z) eqn:Hfz; [|reflexivity]. exfalso. apply Hy.
    apply (Hf z (or_intror Hz)) in Hfz. rewrite <- Hfz. apply in_map, Hz.
  - destruct (f y) eqn:Hfy.
    + exfalso. apply Hy. apply (Hf y (or_introl eq_refl)) in Hfy. rewrite Hfy.
      apply in_map, Hin.
    + apply IH; auto. intros z Hz. apply Hf. right. exact Hz.
Qed.

Lemma primary_keys_posts st :
  primary_keys st ->
  List.NoDup (List.map p_id (post_rows st)) /\
  forall d t, st = Some d -> posts d = Some t ->
    Forall (fun p => p_id p < auto_increment t) (rows t).
Proof.
  destruct st as [[ut [pt|]]|]; simpl.
  - intros [_ [Hnd Hlt]]. split; [exact Hnd|]. intros d t [= <-] [= <-]. exact Hlt.
  - intros _. split; [constructor|]. intros d t [= <-]. discriminate.
  - intros _. split; [constructor|]. discriminate.
Qed.

Lemma router_get_post_unique e req st p :
  List.NoDup (List.map p_id (post_rows st)) -> In p (post_rows st) ->
  (forall q, In q (post_rows st) ->
     (int_eq_text (p_id q) (params_id req) = true <-> p_id q = p_id p)) ->
  router_get_post e req st = (mk_response 200 (post_json p), st).
Proof.
  intros Hnd Hin Hname. unfold router_get_post, select_post_by_id, with_database.
  destruct st as [[ut [pt|]]|]; simpl in *; try contradiction.
  rewrite (filter_by_key p_id _ _ p Hnd Hin Hname). reflexivity.
Qed.

(** X8. Create, then read: on a store with primary keys, when a
    request to create a post is answered 201 with [postId = id], a
    later request for the post by id, whose id text names [id] among
    the posts, is answered 200 with a post of that id, the title and
    content of the creating body, the creating token's account as
    owner, and the time of creation. *)
Theorem create_then_get
    (e e' : env) (req req' : request) (st : store) (user : payload) (id : Z) :
  primary_keys st ->
  authMiddleware e req = Next user ->
  fst (router_post_post e req st)
  = mk_response 201 (JObj [("message", JStr "Post created"); ("postId", JNum id)]) ->
  names_post (params_id req') id (snd (router_post_post e req st)) ->
  router_get_post e' req' (snd (router_post_post e req st))
  = (mk_response 200
       (post_json (mk_post id (body_title req) (body_content req) (tk_id user) (now e))),
     snd (router_post_post e req st)).
Proof.
  intros Hpk Hauth H201 Hname.
  pose proof (primary_keys_insert_post (now e) (body_title req) (body_content req)
                (tk_id user) st Hpk) as Hpk'.
  revert H201 Hname Hpk'. unfold router_post_post.
  rewrite (protected_next _ _ _ _ _ Hauth).
  pose proof (insert_post_rows (now e) (body_title req) (body_content req) (tk_id user) st)
    as [_ Hrows].
  destruct (insert_post _ _ _ _ st) as [[result|err] st']; simpl in *; [|discriminate].
  intros [= <-] Hname Hpk'.
  apply router_get_post_unique.
  - apply primary_keys_posts, Hpk'.
  - rewrite Hrows. apply in_app_iff. right. left. reflexivity.
  - exact Hname.
Qed.


Lemma where_hit_iff id user_id q :
  where_id_and_user_id id user_id q = true <->
  int_eq_text (p_id q) id = true /\ p_user_id q = user_id.
Proof. unfold where_id_and_user_id. rewrite andb_true_iff, Z.eqb_eq. reflexivity. Qed.

Lemma count_hit {T} (f : T -> bool) (l : list T) (x : T) :
  In x l -> f x = true -> (Z.of_nat (length (List.filter f l)) =? 0) = false.
Proof.
  intros Hin Hx. destruct (List.filter f l) eqn:Hf; [|reflexivity].
  assert (H : In x (List.filter f l)) by (apply List.filter_In; auto).
  rewrite Hf in H. destruct H.
Qed.

Lemma router_put_post_run e req st user :
  authMiddleware e req = Next user ->
  snd (router_put_post e req st)
  = snd (update_post (body_title req) (body_content req) (params_id req) (tk_id user) st).
Proof.
  intros Hauth. unfold router_put_post. rewrite (protected_next _ _ _ _ _ Hauth).
  destruct (update_post _ _ _ _ st) as [[r|err] st']; [|reflexivity].
  destruct (affectedRows r =? 0); reflexivity.
Qed.

Lemma router_delete_post_run e req st user :
  authMiddleware e req = Next user ->
  snd (router_delete_post e req st) = snd (delete_post (params_id req) (tk_id user) st).
Proof.
  intros Hauth. unfold router_delete_post. rewrite (protected_next _ _ _ _ _ Hauth).
  destruct (delete_post _ _ st) as [[r|err] st']; [|reflexivity].
  destruct (affectedRows r =? 0); reflexivity.
Qed.

Lemma post_rows_table st p :
  In p (post_rows st) -> exists d t, st = Some d /\ posts d = Some t /\ post_rows st = rows t.
Proof.
  destruct st as [[ut [pt|]]|]; simpl; try contradiction. intros _. eauto.
Qed.


(** X10. A delete by the owner: when a post of the store matches the
    id of the request and belongs to the account of the token, the
    answer is 200 "Post deleted"; afterwards the posts are exactly
    those that did not both match the id and belong to that account,
    in their order, so that post is gone; the accounts are what they
    were. *)
Theorem delete_by_owner (e : env) (req : request) (st : store) (user : payload) (p : post_row) :
  authMiddleware e req = Next user ->
  In p (post_rows st) ->
  int_eq_text (p_id p) (params_id req) = true ->
  p_user_id p = tk_id user ->
  fst (router_delete_post e req st)
  = mk_response 200 (JObj [("message", JStr "Post deleted")]) /\
  ~ In p (post_rows (snd (router_delete_post e req st))) /\
  (forall q, In q (post_rows (snd (router_delete_post e req st))) <->
     In q (post_rows st) /\
     ~ (int_eq_text (p_id q) (params_id req) = true /\ p_user_id q = tk_id user)) /\
  user_rows (snd (router_delete_post e req st)) = user_rows st.
Proof.
  intros Hauth Hin Hid Hown.
  assert (Hhit : forall q, where_id_and_user_id (params_id req) (tk_id user) q = true <->
                   int_eq_text (p_id q) (params_id req) = true /\ p_user_id q = tk_id user).
  { intros q. apply where_hit_iff. }
  rewrite (router_delete_post_run e req st user Hauth).
  destruct (delete_post_rows (params_id req) (tk_id user) st) as [Hu Hp].
  assert (Hiff : forall q, In q (post_rows (snd (delete_post (params_id req) (tk_id user) st))) <->
     In q (post_rows st) /\
     ~ (int_eq_text (p_id q) (params_id req) = true /\ p_user_id q = tk_id user)).
  { intros q. rewrite Hp, List.filter_In, <- Hhit, negb_true_iff, not_true_iff_false.
    reflexivity. }
  split; [|split; [|split]].
  - unfold router_delete_post. rewrite (protected_next _ _ _ _ _ Hauth).
    destruct (post_rows_table st p Hin) as (d & t & -> & Ht & Hrows).
    unfold delete_post, with_database. rewrite Ht. simpl.
    rewrite Hrows in Hin. rewrite (count_hit _ _ p Hin (proj2 (Hhit p) (conj Hid Hown))).
    reflexivity.
  - intros Hp'. apply Hiff in Hp' as [_ Hno]. apply Hno. split; assumption.
  - exact Hiff.
  - exact Hu.
Qed.


(** X12. What a request cannot touch: after an update or a delete,
    every post that does not belong to the account of the request's
    token (every post, if the token is rejected) is in the table as it
    was; creating a post keeps every post; and none of the three
    changes the accounts. *)
Theorem other_posts_untouched (e : env) (req : request) (st : store) :
  (forall p, In p (post_rows st) ->
     (forall user, authMiddleware e req = Next user -> p_user_id p <> tk_id user) ->
     In p (post_rows (snd (router_put_post e req st))) /\
     In p (post_rows (snd (router_delete_post e req st)))) /\
  (forall p, In p (post_rows st) -> In p (post_rows (snd (router_post_post e req st)))) /\
  user_rows (snd (router_put_post e req st)) = user_rows st /\
  user_rows (snd (router_delete_post e req st)) = user_rows st /\
  user_rows (snd (router_post_post e req st)) = user_rows st.
Proof.
  destruct (authMiddleware e req) as [user|r] eqn:Hauth.
  - rewrite (router_put_post_run e req st user Hauth).
    rewrite (router_delete_post_run e req st user Hauth).
    destruct (update_post_rows (body_title req) (body_content req) (params_id req)
                (tk_id user) st) as [Huu Hup].
    destruct (delete_post_rows (params_id req) (tk_id user) st) as [Hdu Hdp].
    assert (Hpost : snd (router_post_post e req st)
                    = snd (insert_post (now e) (body_title req) (body_content req)
                             (tk_id user) st)).
    { unfold router_post_post. rewrite (protected_next _ _ _ _ _ Hauth).
      destruct (insert_post _ _ _ _ st) as [[x|x] st']; reflexivity. }
    rewrite Hpost.
    destruct (insert_post_rows (now e) (body_title req) (body_content req) (tk_id user) st)
      as [Hiu Hip].
    split; [|split; [|auto]].
    + intros p Hin Hother. specialize (Hother user eq_refl).
      assert (Hmiss : where_id_and_user_id (params_id req) (tk_id user) p = false).
      { apply not_true_iff_false. intros H. apply where_hit_iff in H as [_ H]. auto. }
      split.
      * rewrite Hup. apply in_map_iff. exists p. rewrite Hmiss. auto.
      * rewrite Hdp. apply List.filter_In. rewrite Hmiss. auto.
    + intros p Hin. destruct (fst (insert_post _ _ _ _ st)); rewrite Hip; [|exact Hin].
      apply in_app_iff. left. exact Hin.
  - unfold router_put_post, router_delete_post, router_post_post.
    rewrite !(protected_reject _ _ _ _ _ Hauth). simpl. auto.
Qed.

(** X13. A request that the middleware rejects gets that rejection,
    with status 401, from each of the four protected routes (profile,
    create, update, delete), and the store is left as it was. *)
Theorem rejected_requests_change_nothing (e : env) (req : request) (r : response) :
  authMiddleware e req = Reject r ->
  status r = 401 /\
  forall st,
    router_get_profile e req st = (r, st) /\
    router_post_post e req st = (r, st) /\
    router_put_post e req st = (r, st) /\
    router_delete_post e req st = (r, st).
Proof.
  intros Hauth. split; [apply (authMiddleware_reject_401 e req r Hauth)|].
  intros st. unfold router_get_profile, router_post_post, router_put_post, router_delete_post.
  rewrite !(protected_reject _ _ _ _ _ Hauth). auto.
Qed.

(** ** Registration *)


(** The collation relates every string to itself. *)
Hypothesis collate_refl : forall s, collate_eq s s = true.

(** X15. Register, then log in: after a registration answered 201, a
    login with the email and password of the registration is answered
    200 with the profile of the new account, under the id the
    registration reported, and a token whose claims decode to that id
    and email, issued at the time of the login for 24 hours. *)
Theorem register_then_login (e e' : env) (req req' : request) (st : store) :
  status (fst (router_post_register e req st)) = 201 ->
  body_email req' = body_email req ->
  body_password req' = body_password req ->
  exists id token,
    body_field "userId" (fst (router_post_register e req st)) = Some (JNum id) /\
    fst (router_post_login e' req' (snd (router_post_register e req st)))
    = mk_response 200
        (JObj [("token", JStr token);
               ("user", JObj [("id", JNum id);
                              ("username", JStr (body_username req));
                              ("email", JStr (body_email req))])]) /\
    jwt_decode token
    = Some (mk_payload id (body_email req) (now e') (now e' + 24 * 60 * 60)).
Proof.
  intros H201 Hemail Hpw. revert H201. unfold router_post_register, insert_user, with_database.
  destruct st as [[[[ur au]|] pt]|]; simpl; try discriminate.
  destruct (existsb _ ur) eqn:Hex; simpl; [discriminate|]. intros _.
  exists au. eexists. split; [reflexivity|].
  unfold router_post_login, select_user_by_email, with_database. simpl.
  rewrite List.filter_app, Hemail. simpl. rewrite collate_refl.
  rewrite filter_none.
  - simpl. rewrite Hpw, compare_hash. simpl. split; [reflexivity|].
    rewrite jwt_decode_sign. reflexivity.
  - intros u Hin. destruct (collate_eq (u_email u) (body_email req)) eqn:Hc; [|reflexivity].
    apply not_true_iff_false in Hex. destruct Hex. apply existsb_exists.
    exists u. split; [exact Hin|]. unfold duplicates. rewrite Hc. apply orb_true_r.
Qed.

(** ** From login to the protected routes *)

Lemma header_token_bearer req token :
  authorization req = Some ("Bearer " ++ token) -> occurs space token = false ->
  header_token req = Some token.
Proof.
  intros Hh Hsp. unfold header_token. rewrite Hh.
  change ("Bearer " ++ token) with ("Bearer" ++ String space token).
  rewrite split_at_sep by reflexivity. rewrite (split_no_sep _ _ Hsp). reflexivity.
Qed.

Lemma filter_by_id (l : list user_row) (user : user_row) :
  List.NoDup (List.map u_id l) -> In user l ->
  List.filter (fun u => u_id u =? u_id user) l = [user].
Proof.
  intros Hnd Hin. apply (filter_by_key u_id _ _ user Hnd Hin).
  intros y _. apply Z.eqb_eq.
Qed.

(** X16. Log in, then read the profile: on a store with primary keys,
    when a login is answered with a token, and that token (it has no
    space and is not empty) is sent as "Bearer <token>" to the profile
    route under the same secret before 24 hours have passed, the
    answer is 200 with the id, username and email (and no other field)
    of the account the login matched: the first account whose email
    equals the login's under the collation, and whose stored hash the
    login's password verified against. *)
Theorem login_then_profile
    (e e' : env) (req req' : request) (st : store) (token : string) :
  primary_keys st ->
  body_field "token" (fst (router_post_login e req st)) = Some (JStr token) ->
  authorization req' = Some ("Bearer " ++ token) ->
  occurs space token = false -> token <> EmptyString ->
  JWT_SECRET e' = JWT_SECRET e ->
  now e' < now e + 24 * 60 * 60 ->
  exists user rest,
    fst (select_user_by_email (body_email req) st) = Ok (user :: rest) /\
    bcrypt_compare (body_password req) (u_password user) = true /\
    router_get_profile e' req' st
    = (mk_response 200
         (JObj [("id", JNum (u_id user)); ("username", JStr (u_username user));
                ("email", JStr (u_email user))]),
       st).
Proof.
  intros Hpk Htok Hh Hsp Hne Hsecret Hclock. revert Htok. unfold router_post_login.
  destruct (select_user_by_email (body_email req) st) as [[[|user rest]|err] st1] eqn:Hsel;
    try discriminate.
  destruct (bcrypt_compare (body_password req) (u_password user)) eqn:Hpw; simpl;
    [|discriminate].
  intros [= <-]. exists user, rest. split; [reflexivity|]. split; [exact Hpw|].
  unfold router_get_profile, protected, authMiddleware.
  rewrite (header_token_bearer req' _ Hh Hsp).
  destruct (String.eqb _ EmptyString) eqn:Hn;
    [apply String.eqb_eq in Hn; contradiction|].
  rewrite Hsecret, jwt_verify_sign.
  change expiresIn_24h with (24 * 60 * 60).
  destruct (Z.leb_spec (now e + 24 * 60 * 60) (now e')); [lia|]. simpl.
  revert Hsel Hpk. unfold select_user_by_email, select_profile, with_database.
  destruct st as [[[[ur au]|] pt]|]; simpl; try discriminate.
  intros [= Hf _] [[Hnd _] _]. simpl in Hnd.
  assert (Hin : In user ur).
  { assert (Hfil : In user (List.filter (fun u => collate_eq (u_email u) (body_email req)) ur))
      by (rewrite Hf; left; reflexivity).
    apply List.filter_In in Hfil. apply Hfil. }
  rewrite (filter_by_id ur user Hnd Hin). reflexivity.
Qed.

(** X17. The middleware looks at nothing but the credential part: two
    requests whose Authorization headers have the same credential part
    get the same outcome, whatever the scheme word before it (none,
    "Bearer", "Basic", ...) and whatever follows a second space. *)
Theorem authMiddleware_credential_only
    (e : env) (req req' : request) (h h' cred : string) :
  authorization req = Some h -> authorization req' = Some h' ->
  has_credential cred h -> has_credential cred h' ->
  authMiddleware e req = authMiddleware e req' /\
  authMiddleware e req
  = match jwt_verify cred (JWT_SECRET e) (now e) with
    | Ok decoded => Next decoded
    | Err _ => Reject (mk_response 401 (JObj [("error", JStr "Invalid token")]))
    end.
Proof.
  intros Hh Hh' Hc Hc'. unfold authMiddleware.
  rewrite (header_token_has_credential req h cred Hh Hc).
  rewrite (header_token_has_credential req' h' cred Hh' Hc').
  split; [reflexivity|].
  destruct (String.eqb cred EmptyString) eqn:Hn; [|reflexivity].
  apply String.eqb_eq in Hn. destruct Hc; contradiction.
Qed.

(** ** More on the bootstrap *)

(** A store without accounts and without posts, whose users table, if
    it exists, has not drawn an id yet. *)
Definition fresh_store (st : store) : Prop :=
  user_rows st = [] /\ post_rows st = [] /\
  forall d t, st = Some d -> users d = Some t -> auto_increment t = 1.

(** A post row written from the seed data. *)
Definition seeded_post (p : post_row) : Prop :=
  exists mp, In mp mockPosts /\
    p_title p = mp_title mp /\ p_content p = mp_content mp /\ p_user_id p = mp_user_id mp.

(** [st] is [st0] with seeded accounts and seeded posts added at the
    end of the tables. *)
Definition appended (st0 st : store) : Prop :=
  exists new_users new_posts,
    user_rows st = (user_rows st0 ++ new_users)%list /\ Forall seeded_account new_users /\
    post_rows st = (post_rows st0 ++ new_posts)%list /\ Forall seeded_post new_posts.

(** An environment that injects no failure runs the [try] block as the
    environment with the constant oracle does. *)
Definition quiet (be : boot_env) : boot_env :=
  mk_boot_env false (fun _ => false) (boot_now be) (boot_salts be).

Lemma boot_bind_ext {A B} (m m' : boot A) (k k' : A -> boot B) c :
  (forall c0, m c0 = m' c0) -> (forall a c0, k a c0 = k' a c0) ->
  boot_bind m k c = boot_bind m' k' c.
Proof.
  intros Hm Hk. unfold boot_bind. rewrite Hm.
  destruct (m' c) as [[a|e] c']; [apply Hk|reflexivity].
Qed.

Lemma for_of_ext {A} (xs : list A) (f f' : A -> boot unit) c :
  (forall x c0, f x c0 = f' x c0) -> for_of xs f c = for_of xs f' c.
Proof.
  intros Hf. revert c. induction xs as [|x xs IH]; intros c; [reflexivity|].
  simpl. apply boot_bind_ext; [apply Hf|intros _ c0; apply IH].
Qed.

Lemma query_quiet {A} be s (run : sql A) c :
  healthy be -> query be s run c = query (quiet be) s run c.
Proof. intros [_ Hq]. unfold query. rewrite Hq. reflexivity. Qed.

Lemma createTables_try_quiet be c :
  healthy be -> createTables_try be c = createTables_try (quiet be) c.
Proof.
  intros Hh. unfold createTables_try.
  repeat (apply boot_bind_ext; [intros ?|intros ? ?]);
    try apply query_quiet; try assumption; try reflexivity.
  - destruct (_ =? 0); [|reflexivity]. apply for_of_ext. intros x ?.
    unfold seed_user. apply boot_bind_ext; [reflexivity|]. intros h ?.
    apply boot_bind_ext; [intros ?; apply query_quiet, Hh|reflexivity].
  - destruct (_ =? 0); [|reflexivity]. apply for_of_ext. intros x ?.
    unfold seed_post.
    apply boot_bind_ext; [intros ?; apply query_quiet, Hh|reflexivity].
Qed.

(** X18. First start: on a fresh store (no database, no tables, or
    empty tables that have drawn no account id), with no injected
    failure and a collation that tells the two seed accounts apart, the
    bootstrap resolves and the server listens; the accounts are then
    exactly the two seed accounts, with ids 1 and 2 and the hashes of
    their seed passwords under the first and second salt drawn, and the
    posts are the five seed posts in order, each owned by one of
    them. *)
Theorem fresh_install (be : boot_env) (st : store) :
  healthy be -> fresh_store st ->
  collate_eq "johndoe" "janedoe" = false ->
  collate_eq "john@example.com" "jane@example.com" = false ->
  settled (createTables be st) = Ok tt /\
  server_start be st = Listening (store_after be st) /\
  user_rows (store_after be st)
  = [ mk_user 1 "johndoe" "john@example.com"
        (bcrypt_hash "password123" 10 (boot_salts be 0%nat)) (boot_now be);
      mk_user 2 "janedoe" "jane@example.com"
        (bcrypt_hash "password456" 10 (boot_salts be 1%nat)) (boot_now be) ] /\
  List.map (fun p => (p_title p, p_content p, p_user_id p)) (post_rows (store_after be st))
  = List.map (fun m => (mp_title m, mp_content m, mp_user_id m)) mockPosts /\
  references_hold (store_after be st).
Proof.
  intros Hh (Hu & Hp & Hai) Hname Hmail. pose proof Hh as [Hc Hq].
  assert (Hrun : settled (createTables be st) = Ok tt /\
    user_rows (store_after be st)
    = [ mk_user 1 "johndoe" "john@example.com"
          (bcrypt_hash "password123" 10 (boot_salts be 0%nat)) (boot_now be);
        mk_user 2 "janedoe" "jane@example.com"
          (bcrypt_hash "password456" 10 (boot_salts be 1%nat)) (boot_now be) ] /\
    List.map (fun p => (p_title p, p_content p, p_user_id p)) (post_rows (store_after be st))
    = List.map (fun m => (mp_title m, mp_content m, mp_user_id m)) mockPosts /\
    List.map p_user_id (post_rows (store_after be st)) = [1; 1; 2; 2; 1]).
  { unfold store_after, createTables. rewrite Hc, (createTables_try_quiet _ _ Hh).
    destruct be as [cf qf clock salts]. unfold quiet. simpl boot_now. simpl boot_salts.
    destruct st as [[[[ur au]|] [[pr ap]|]]|]; simpl in Hu, Hp;
      try (specialize (Hai _ _ eq_refl eq_refl); simpl in Hai); subst;
      vm_compute;
      repeat (progress (rewrite ?Hname, ?Hmail); vm_compute);
      repeat split; reflexivity. }
  destruct Hrun as (Hok & Hus & Hps & Hown).
  split; [exact Hok|]. split; [unfold server_start; rewrite Hok; reflexivity|].
  split; [exact Hus|]. split; [exact Hps|].
  intros p Hin. rewrite Hus.
  assert (Hp12 : In (p_user_id p) [1; 1; 2; 2; 1]).
  { rewrite <- Hown. apply in_map, Hin. }
  simpl in Hp12.
  destruct Hp12 as [H|[H|[H|[H|[H|[]]]]]]; rewrite <- H; eexists; simpl; eauto.
Qed.

(** ** A store the bootstrap cannot start on *)

(** There are accounts, none of them has the id 1 that the first seed
    post names as its owner, and there is no post. *)
Definition seed_owner_missing (st : store) : Prop :=
  user_rows st <> [] /\ post_rows st = [] /\
  forall u, In u (user_rows st) -> u_id u <> 1.

(** The store after one start for each environment of [bes], in
    order. *)
Definition restarts (bes : list boot_env) (st : store) : store :=
  fold_left (fun s b => store_after b s) bes st.

Lemma no_owner (l : list user_row) (id : Z) :
  (forall u, In u l -> u_id u <> id) -> existsb (fun u => u_id u =? id) l = false.
Proof.
  intros H. induction l as [|u l IH]; [reflexivity|]. simpl.
  rewrite IH by (intros v Hv; apply H; right; exact Hv).
  rewrite orb_false_r. apply Z.eqb_neq, H. left. reflexivity.
Qed.

Lemma seed_owner_missing_run be st :
  healthy be -> seed_owner_missing st ->
  settled (createTables be st) = Err ER_NO_REFERENCED_ROW_2 /\
  user_rows (store_after be st) = user_rows st /\
  post_rows (store_after be st) = post_rows st.
Proof.
  intros Hh (Hne & Hp & Hno). pose proof Hh as [Hc _].
  apply no_owner in Hno.
  unfold store_after, createTables. rewrite Hc, (createTables_try_quiet _ _ Hh).
  destruct st as [[[[ur au]|] [[pr ap]|]]|]; simpl in Hne, Hp, Hno; try congruence;
    subst; (destruct ur as [|u ur]; [congruence|]);
    unfold createTables_try, boot_bind, query, quiet; simpl;
    unfold seed_post, boot_bind, query; simpl;
    simpl in Hno; rewrite Hno; simpl; auto.
Qed.

(** X19. A store that has accounts, none of them with id 1, and no
    posts cannot be started on: with no injected failure, the bootstrap
    skips the accounts, tries to seed the first post for the owner 1
    and is refused by the foreign key, so the server crashes with that
    error; no row is added, so every later start, whatever its clock
    and salts, crashes the same way. *)
Theorem bootstrap_stuck (bes : list boot_env) (be : boot_env) (st : store) :
  Forall healthy bes -> healthy be -> seed_owner_missing st ->
  server_start be (restarts bes st) = Crashed ER_NO_REFERENCED_ROW_2 /\
  user_rows (restarts bes st) = user_rows st /\
  post_rows (restarts bes st) = [].
Proof.
  intros Hbes Hbe Hst.
  assert (Hall : seed_owner_missing (restarts bes st) /\
                 user_rows (restarts bes st) = user_rows st).
  { revert st Hst. induction Hbes as [|b bs Hb _ IH]; intros st Hst; [auto|].
    simpl. destruct (seed_owner_missing_run b st Hb Hst) as (_ & Hu & Hp).
    assert (Hnext : seed_owner_missing (store_after b st)).
    { destruct Hst as (Hne & Hnil & Hno). unfold seed_owner_missing.
      rewrite Hu, Hp. auto. }
    destruct (IH _ Hnext) as [Hm Hus].
    split; [exact Hm|]. rewrite Hus. exact Hu. }
  destruct Hall as [Hm Hus].
  destruct (seed_owner_missing_run be _ Hbe Hm) as (Hr & _ & _).
  unfold server_start. rewrite Hr.
  split; [reflexivity|]. split; [exact Hus|]. apply Hm.
Qed.

(** *** What the bootstrap adds *)

Lemma appended_refl st : appended st st.
Proof.
  exists [], []. rewrite !app_nil_r. auto.
Qed.

Lemma appended_same st0 st st' :
  user_rows st' = user_rows st /\ post_rows st' = post_rows st ->
  appended st0 st -> appended st0 st'.
Proof.
  intros [Hu Hp] (nu & np & H1 & H2 & H3 & H4). exists nu, np.
  rewrite Hu, Hp. auto.
Qed.

Lemma appended_user st0 st st' row :
  user_rows st' = (user_rows st ++ [row])%list -> post_rows st' = post_rows st ->
  seeded_account row -> appended st0 st -> appended st0 st'.
Proof.
  intros Hu Hp Hrow (nu & np & H1 & H2 & H3 & H4). exists (nu ++ [row])%list, np.
  rewrite Hu, Hp, H1, <- app_assoc.
  split; [reflexivity|]. split; [|auto].
  apply List.Forall_app. auto.
Qed.

Lemma appended_post st0 st st' row :
  user_rows st' = user_rows st -> post_rows st' = (post_rows st ++ [row])%list ->
  seeded_post row -> appended st0 st -> appended st0 st'.
Proof.
  intros Hu Hp Hrow (nu & np & H1 & H2 & H3 & H4). exists nu, (np ++ [row])%list.
  rewrite Hu, Hp, H3, <- app_assoc.
  split; [exact H1|]. split; [exact H2|]. split; [reflexivity|].
  apply List.Forall_app. auto.
Qed.

Lemma triple_query_appended {A} be s (run : sql A) st0 :
  (forall st, user_rows (snd (run st)) = user_rows st /\
              post_rows (snd (run st)) = post_rows st) ->
  triple (fun c => appended st0 (conn_store c)) (query be s run)
    (fun _ c => appended st0 (conn_store c)).
Proof.
  intros H.
  apply (triple_query be s run (appended st0) (fun _ => appended st0)).
  - intros st Hst. eapply appended_same; [apply H|exact Hst].
  - auto.
Qed.

Lemma seed_user_appended be st0 mu :
  In mu mockUsers ->
  triple (fun c => appended st0 (conn_store c)) (seed_user be mu)
    (fun _ c => appended st0 (conn_store c)).
Proof.
  intros Hmu c Hc. unfold seed_user, boot_bind, hash_with_next_salt, query. simpl.
  set (salt := boot_salts be (salts_drawn c)).
  destruct (query_fails be (length (conn_log c))); simpl; [exact Hc|].
  pose proof (insert_user_rows (boot_now be) (mu_username mu) (mu_email mu)
                (bcrypt_hash (mu_password mu) 10 salt) (conn_store c)) as [Hps Hins].
  destruct (insert_user _ _ _ _ _) as [[result|e] st']; simpl in *.
  - eapply appended_user; [exact Hins|exact Hps| |exact Hc].
    exists mu, salt. auto.
  - eapply appended_same; eauto.
Qed.

Lemma seed_post_appended be st0 mp :
  In mp mockPosts ->
  triple (fun c => appended st0 (conn_store c)) (seed_post be mp)
    (fun _ c => appended st0 (conn_store c)).
Proof.
  intros Hmp c Hc. unfold seed_post, boot_bind, query. simpl.
  destruct (query_fails be (length (conn_log c))); simpl; [exact Hc|].
  pose proof (insert_post_rows (boot_now be) (mp_title mp) (mp_content mp)
                (mp_user_id mp) (conn_store c)) as [Hus Hins].
  destruct (insert_post _ _ _ _ _) as [[result|e] st']; simpl in *.
  - eapply appended_post; [exact Hus|exact Hins| |exact Hc].
    exists mp. auto.
  - eapply appended_same; eauto.
Qed.

Lemma createTables_try_appended be st0 :
  triple (fun c => appended st0 (conn_store c)) (createTables_try be)
    (fun _ c => appended st0 (conn_store c)).
Proof.
  unfold createTables_try.
  repeat first
    [ apply triple_ret; solve [auto]
    | eapply triple_bind with (R := fun _ c => appended st0 (conn_store c));
      [| intros ? | solve [auto] ] ].
  - apply triple_query_appended. apply create_database_rows.
  - apply triple_query_appended. intros st. rewrite use_database_rows. auto.
  - apply triple_query_appended. apply create_users_table_rows.
  - apply triple_query_appended. apply create_posts_table_rows.
  - apply triple_query_appended. intros st. rewrite (proj1 (count_users_spec st)). auto.
  - destruct (_ =? 0); [|apply triple_ret; auto].
    apply triple_for_of; auto. intros mu Hmu. apply seed_user_appended, Hmu.
  - apply triple_query_appended. intros st. rewrite (proj1 (count_posts_spec st)). auto.
  - destruct (_ =? 0); [|apply triple_ret; auto].
    apply triple_for_of; auto. intros mp Hmp. apply seed_post_appended, Hmp.
Qed.

(** X20. Whatever fails and wherever it fails, a run of the bootstrap
    leaves every account row and every post row that was there in
    place, unchanged and in the same order, and what it adds comes
    after them: accounts of the seed data with hashed passwords and
    posts of the seed data. *)
Theorem bootstrap_only_appends (be : boot_env) (st : store) :
  exists new_users new_posts,
    user_rows (store_after be st) = (user_rows st ++ new_users)%list /\
    Forall seeded_account new_users /\
    post_rows (store_after be st) = (post_rows st ++ new_posts)%list /\
    Forall seeded_post new_posts.
Proof.
  change (appended st (store_after be st)).
  unfold store_after, createTables.
  destruct (connect_fails be); simpl; [apply appended_refl|].
  pose proof (createTables_try_appended be st (mk_connection st [] false 0)) as H.
  destruct (createTables_try be _) as [r c]. simpl in *.
  apply H, appended_refl.
Qed.

End Server.

(** ** The reference instance meets the contracts *)

Lemma reference_unframe_quote (s rest w : string) (ws : list string) :
  Reference.unframe rest = Some (w :: ws) ->
  Reference.unframe (Reference.quote s ++ rest) = Some ((s ++ w) :: ws).
Proof.
  intros H. induction s as [|a s IH]; simpl; [exact H|].
  rewrite IH. reflexivity.
Qed.

Lemma reference_append_cons (a : ascii) (s t : string) :
  String a s ++ t = String a (s ++ t).
Proof. reflexivity. Qed.

Lemma reference_append_empty (s : string) : s ++ EmptyString = s.
Proof.
  induction s as [|a s IH]; [reflexivity|].
  rewrite reference_append_cons, IH. reflexivity.
Qed.

Lemma reference_unframe_separator (s : string) :
  Reference.unframe (String ";"%char s) = cons EmptyString <$> Reference.unframe s.
Proof. reflexivity. Qed.

Lemma reference_unframe_frame (fields : list string) :
  fields <> [] -> Reference.unframe (Reference.frame fields) = Some fields.
Proof.
  induction fields as [|s rest IH]; intros Hne; [contradiction|].
  destruct rest as [|s2 rest].
  - simpl. rewrite <- (reference_append_empty (Reference.quote s)).
    rewrite (reference_unframe_quote s EmptyString EmptyString []) by reflexivity.
    rewrite reference_append_empty. reflexivity.
  - change (Reference.frame (s :: s2 :: rest))
      with (Reference.quote s ++ String ";"%char (Reference.frame (s2 :: rest))).
    rewrite (reference_unframe_quote s _ EmptyString (s2 :: rest)).
    + rewrite reference_append_empty. reflexivity.
    + rewrite reference_unframe_separator, IH by discriminate. reflexivity.
Qed.

Lemma reference_parse_compact (j : jws) :
  Reference.jws_parse (Reference.jws_compact j) = Some j.
Proof.
  unfold Reference.jws_parse, Reference.jws_compact.
  rewrite reference_unframe_frame by discriminate. destruct j. reflexivity.
Qed.

Lemma reference_read_show_Z (n : Z) : Reference.read_Z (Reference.show_Z n) = Some n.
Proof.
  unfold Reference.read_Z, Reference.show_Z. rewrite NilEmpty.isi. simpl.
  rewrite DecimalZ.of_to. reflexivity.
Qed.

Lemma reference_decode_encode (p : payload) :
  Reference.claims_decode (Reference.claims_encode p) = Some p.
Proof.
  unfold Reference.claims_decode, Reference.claims_encode.
  rewrite reference_unframe_frame by discriminate.
  rewrite !reference_read_show_Z. destruct p. reflexivity.
Qed.

Lemma reference_mac_collision_free (key header b b' : string) :
  Reference.mac key header b = Reference.mac key header b' -> b = b'.
Proof.
  unfold Reference.mac. intros H.
  apply (f_equal Reference.unframe) in H.
  rewrite !reference_unframe_frame in H by discriminate.
  congruence.
Qed.

Lemma reference_prefix_append (a b : string) : String.prefix a (a ++ b) = true.
Proof.
  induction a as [|c a IH]; [destruct b; reflexivity|].
  rewrite reference_append_cons. simpl.
  destruct (ascii_dec c c); [exact IH|contradiction].
Qed.

Lemma reference_prefix_weaken (a b h : string) :
  String.prefix (a ++ b) h = true -> String.prefix a h = true.
Proof.
  revert h. induction a as [|c a IH]; intros h; [destruct h; reflexivity|].
  rewrite reference_append_cons.
  destruct h as [|d h]; [discriminate|]. simpl.
  destruct (ascii_dec c d); [apply IH|discriminate].
Qed.

Lemma reference_length_append (a b : string) :
  String.length (a ++ b) = (String.length a + String.length b)%nat.
Proof.
  induction a as [|c a IH]; [reflexivity|].
  rewrite reference_append_cons. simpl. rewrite IH. reflexivity.
Qed.

Lemma reference_append_assoc (a b c : string) : (a ++ b) ++ c = a ++ (b ++ c).
Proof.
  induction a as [|x a IH]; [reflexivity|].
  rewrite !reference_append_cons, IH. reflexivity.
Qed.

Lemma reference_compare_hash (plain : string) (rounds : Z) (salt : string) :
  Reference.bcrypt_compare plain (Reference.bcrypt_hash plain rounds salt) = true.
Proof.
  unfold Reference.bcrypt_compare, Reference.bcrypt_hash.
  rewrite <- (reference_append_assoc plain "$" salt).
  rewrite <- (reference_append_assoc "$2b$" (plain ++ "$") salt).
  apply reference_prefix_append.
Qed.

Lemma reference_hash_opaque (plain : string) (rounds : Z) (salt : string) :
  Reference.bcrypt_hash plain rounds salt <> plain.
Proof.
  unfold Reference.bcrypt_hash. intros H. apply (f_equal String.length) in H.
  rewrite !reference_length_append in H. simpl in H. lia.
Qed.

Lemma reference_compare_fail_closed (plain stored : string) :
  Reference.bcrypt_well_formed stored = false ->
  Reference.bcrypt_compare plain stored = false.
Proof.
  unfold Reference.bcrypt_well_formed, Reference.bcrypt_compare. intros H.
  destruct (String.prefix ("$2b$" ++ plain ++ "$") stored) eqn:Hp; [|reflexivity].
  apply reference_prefix_weaken in Hp. congruence.
Qed.

(** ** Concrete runs on the reference instance *)

Definition ref_sign : claims -> string -> Z -> Z -> string :=
  jwt_sign Reference.mac Reference.jws_compact Reference.claims_encode.
Definition ref_verify : string -> string -> Z -> result jwt_error payload :=
  jwt_verify Reference.mac Reference.jws_parse Reference.claims_decode.
Definition ref_decode : string -> option payload :=
  jwt_decode Reference.jws_parse Reference.claims_decode.
Definition ref_authMiddleware : env -> request -> auth_outcome :=
  authMiddleware Reference.mac Reference.jws_parse Reference.claims_decode.
Definition ref_protected : (payload -> handler) -> handler :=
  protected Reference.mac Reference.jws_parse Reference.claims_decode.
Definition ref_login : handler :=
  router_post_login Reference.collate_eq Reference.bcrypt_compare
    Reference.mac Reference.jws_compact Reference.claims_encode.
Definition ref_register : handler :=
  router_post_register Reference.collate_eq Reference.bcrypt_hash.
Definition ref_profile : handler :=
  router_get_profile Reference.mac Reference.jws_parse Reference.claims_decode.
Definition ref_put : handler :=
  router_put_post Reference.int_eq_text Reference.mac Reference.jws_parse
    Reference.claims_decode.
Definition ref_delete : handler :=
  router_delete_post Reference.int_eq_text Reference.mac Reference.jws_parse
    Reference.claims_decode.
Definition ref_createTables : boot_env -> store -> boot_outcome :=
  createTables Reference.collate_eq Reference.bcrypt_hash.
Definition ref_store_after : boot_env -> store -> store :=
  store_after Reference.collate_eq Reference.bcrypt_hash.
Definition ref_server_start : boot_env -> store -> startup :=
  server_start Reference.collate_eq Reference.bcrypt_hash.

Definition ref_post : handler :=
  router_post_post Reference.mac Reference.jws_parse Reference.claims_decode.

(** The scenario of the spec: on the seeded store, register [a], log in,
    read the profile with the token, create a post with it, and try to
    update that post with the token of another account. *)
Definition token_of (r : response) : string :=
  match body_field "token" r with
  | Some (JStr t) => t
  | _ => EmptyString
  end.

Definition scenario : list response :=
  let st0 := ref_store_after healthy_env None in
  let '(r1, st1) := ref_register demo_env (mk_request None "" "a" "a@x.com" "p1" "" "") st0 in
  let '(r2, st2) := ref_login demo_env (mk_request None "" "" "a@x.com" "p1" "" "") st1 in
  let '(r3, st3) :=
    ref_profile demo_env (mk_request (bearer (token_of r2)) "" "" "" "" "" "") st2 in
  let '(r4, st4) :=
    ref_post demo_env (mk_request (bearer (token_of r2)) "" "" "" "" "t" "c") st3 in
  let '(rj, st5) :=
    ref_login demo_env (mk_request None "" "" "jane@example.com" "password456" "" "") st4 in
  let '(r5, st6) :=
    ref_put demo_env (mk_request (bearer (token_of rj)) "6" "" "" "" "t2" "c2") st5 in
  [r1; r3; r4; r5].

Definition janes_claims : payload := mk_payload 2 "jane@example.com" 2000 (2000 + 24 * 60 * 60).
Definition janes_token : string := ref_sign (mk_claims 2 "jane@example.com") secret expiresIn_24h 2000.

(** Jane's token with the id in the claim bytes changed to John's. *)
Definition forged_token : string :=
  Reference.jws_compact
    (mk_jws HS256
       (Reference.claims_encode (mk_payload 1 "jane@example.com" 2000 (2000 + 24 * 60 * 60)))
       (Reference.mac secret HS256 (Reference.claims_encode janes_claims))).

(** A token for an account that is not in the store. *)
Definition ghost_claims : payload := mk_payload 99 "ghost@example.com" 2000 (2000 + 24 * 60 * 60).
Definition ghost_token : string := ref_sign (mk_claims 99 "ghost@example.com") secret expiresIn_24h 2000.

Lemma put_delete_zero_rows_witness :
  ref_authMiddleware demo_env (demo_request (bearer janes_token) "1" "" "") = Next janes_claims /\
  ref_put demo_env (demo_request (bearer janes_token) "1" "" "") demo_store
  = (mk_response 404 (JObj [("error", JStr "Post not found or unauthorized")]), demo_store) /\
  ref_delete demo_env (demo_request (bearer janes_token) "7" "" "") demo_store
  = (mk_response 404 (JObj [("error", JStr "Post not found or unauthorized")]), demo_store).
Proof.
  assert (H1 : ref_authMiddleware demo_env (demo_request (bearer janes_token) "1" "" "")
               = Next janes_claims) by (vm_compute; reflexivity).
  assert (H7 : ref_authMiddleware demo_env (demo_request (bearer janes_token) "7" "" "")
               = Next janes_claims) by (vm_compute; reflexivity).
  split; [exact H1|]. split.
  - destruct (put_delete_zero_rows Reference.int_eq_text Reference.mac Reference.jws_parse
                Reference.claims_decode demo_env _ demo_store _ H1) as (_ & _ & _ & H).
    apply (H _ _ eq_refl eq_refl). right. split.
    + exists johns_post. split; [left; reflexivity|reflexivity].
    + intros p [<-|[]] _. discriminate.
  - destruct (put_delete_zero_rows Reference.int_eq_text Reference.mac Reference.jws_parse
                Reference.claims_decode demo_env _ demo_store _ H7) as (_ & _ & _ & H).
    apply (H _ _ eq_refl eq_refl). left.
    intros p [<-|[]]. reflexivity.
Defined.

Lemma authMiddleware_rejections_witness :
  ref_authMiddleware demo_env (demo_request None "1" "" "")
  = Reject (mk_response 401 (JObj [("error", JStr "No token provided")])) /\
  ref_authMiddleware demo_env (demo_request (Some "Bearer") "1" "" "")
  = Reject (mk_response 401 (JObj [("error", JStr "No token provided")])) /\
  ref_authMiddleware demo_env (demo_request (Some "Bearer ") "1" "" "")
  = Reject (mk_response 401 (JObj [("error", JStr "No token provided")])) /\
  ref_authMiddleware demo_env (demo_request (Some "Bearer abc") "1" "" "")
  = Reject (mk_response 401 (JObj [("error", JStr "Invalid token")])).
Proof.
  split; [|split; [|split]].
  - apply (authMiddleware_rejections Reference.mac Reference.jws_parse
             Reference.claims_decode demo_env (demo_request None "1" "" "")).
    apply header_absent.
  - apply (authMiddleware_rejections Reference.mac Reference.jws_parse
             Reference.claims_decode demo_env (demo_request (Some "Bearer") "1" "" "")).
    apply scheme_only. reflexivity.
  - apply (authMiddleware_rejections Reference.mac Reference.jws_parse
             Reference.claims_decode demo_env (demo_request (Some "Bearer ") "1" "" "")).
    apply (credential_empty "Bearer" ""); [reflexivity|left; reflexivity].
  - apply (proj1 (proj2 (authMiddleware_rejections Reference.mac Reference.jws_parse
             Reference.claims_decode demo_env
             (demo_request (Some "Bearer abc") "1" "" ""))) "Bearer abc" "abc" JwtMalformed).
    + reflexivity.
    + apply (two_tokens "abc" "Bearer"); [reflexivity|reflexivity|discriminate].
    + reflexivity.
Defined.

Lemma issued_token_expired_or_altered_witness :
  (ref_verify janes_token secret (2000 + 24 * 60 * 60) = Err TokenExpired /\
   exists r, status r = 401 /\
     ref_authMiddleware late_env (demo_request (bearer janes_token) "1" "" "") = Reject r /\
     forall h st,
       ref_protected h late_env (demo_request (bearer janes_token) "1" "" "") st = (r, st)) /\
  ((exists err, ref_verify forged_token secret 2000 = Err err) /\
   exists r, status r = 401 /\
     ref_authMiddleware demo_env (demo_request (bearer forged_token) "1" "" "") = Reject r /\
     forall h st,
       ref_protected h demo_env (demo_request (bearer forged_token) "1" "" "") st = (r, st)).
Proof.
  split.
  - apply (issued_token_expired_or_altered Reference.mac Reference.jws_compact
             Reference.jws_parse Reference.claims_encode Reference.claims_decode
             reference_parse_compact reference_decode_encode reference_mac_collision_free
             late_env (demo_request (bearer janes_token) "1" "" "")
             (mk_claims 2 "jane@example.com") 2000 expiresIn_24h forged_token).
    + vm_compute. reflexivity.
    + vm_compute. discriminate.
  - apply (issued_token_expired_or_altered Reference.mac Reference.jws_compact
             Reference.jws_parse Reference.claims_encode Reference.claims_decode
             reference_parse_compact reference_decode_encode reference_mac_collision_free
             demo_env (demo_request (bearer forged_token) "1" "" "")
             (mk_claims 2 "jane@example.com") 2000 expiresIn_24h forged_token).
    + vm_compute. reflexivity.
    + vm_compute. repeat split. discriminate.
Defined.

Lemma login_token_claims_witness :
  Reference.bcrypt_compare "password123" (u_password john) = true /\
  exists token,
    ref_login demo_env (demo_request None "" "john@example.com" "password123") demo_store
    = (mk_response 200
         (JObj [("token", JStr token);
                ("user", JObj [("id", JNum 1); ("username", JStr "johndoe");
                               ("email", JStr "john@example.com")])]),
       demo_store) /\
    ref_decode token = Some (mk_payload 1 "john@example.com" 2000 (2000 + 24 * 60 * 60)) /\
    forall clock, clock < 2000 + 24 * 60 * 60 ->
      ref_verify token secret clock
      = Ok (mk_payload 1 "john@example.com" 2000 (2000 + 24 * 60 * 60)).
Proof.
  split; [reflexivity|].
  apply (login_token_claims Reference.collate_eq Reference.bcrypt_compare Reference.mac
           Reference.jws_compact Reference.jws_parse Reference.claims_encode
           Reference.claims_decode reference_parse_compact reference_decode_encode
           demo_env (demo_request None "" "john@example.com" "password123")
           demo_store demo_store john []).
  - reflexivity.
  - reflexivity.
Defined.

Lemma login_rejections_witness :
  (ref_login demo_env (demo_request None "" "nobody@example.com" "password123") demo_store
   = (mk_response 401 (JObj [("error", JStr "Invalid credentials")]), demo_store) /\
   body_field "token"
     (fst (ref_login demo_env (demo_request None "" "nobody@example.com" "password123")
             demo_store)) = None) /\
  (ref_login demo_env (demo_request None "" "john@example.com" "password456") demo_store
   = (mk_response 401 (JObj [("error", JStr "Invalid credentials")]), demo_store) /\
   body_field "token"
     (fst (ref_login demo_env (demo_request None "" "john@example.com" "password456")
             demo_store)) = None).
Proof.
  split.
  - apply (login_rejections Reference.collate_eq Reference.bcrypt_compare Reference.mac
             Reference.jws_compact Reference.claims_encode demo_env
             (demo_request None "" "nobody@example.com" "password123") demo_store demo_store).
    left. reflexivity.
  - apply (login_rejections Reference.collate_eq Reference.bcrypt_compare Reference.mac
             Reference.jws_compact Reference.claims_encode demo_env
             (demo_request None "" "john@example.com" "password456") demo_store demo_store).
    right. exists john, []. split; reflexivity.
Defined.

Lemma login_malformed_stored_hash_witness :
  Reference.bcrypt_well_formed (u_password legacy) = false /\
  Reference.bcrypt_compare "password789" (u_password legacy) = false /\
  ref_login demo_env (demo_request None "" "legacy@example.com" "password789") demo_store
  = (mk_response 401 (JObj [("error", JStr "Invalid credentials")]), demo_store) /\
  body_field "token"
    (fst (ref_login demo_env (demo_request None "" "legacy@example.com" "password789")
            demo_store)) = None.
Proof.
  split; [reflexivity|].
  apply (login_malformed_stored_hash Reference.collate_eq Reference.bcrypt_compare
           Reference.bcrypt_well_formed Reference.mac Reference.jws_compact
           Reference.claims_encode reference_compare_fail_closed demo_env
           (demo_request None "" "legacy@example.com" "password789")
           demo_store demo_store legacy []).
  - reflexivity.
  - reflexivity.
Defined.

Lemma profile_of_missing_account_witness :
  ref_verify ghost_token secret 2000 = Ok ghost_claims /\
  ref_profile demo_env (demo_request (bearer ghost_token) "" "" "") demo_store
  = (mk_response 200 JUndefined, demo_store).
Proof.
  assert (Hv : ref_verify ghost_token secret 2000 = Ok ghost_claims)
    by (vm_compute; reflexivity).
  split; [exact Hv|].
  apply (profile_of_missing_account Reference.mac Reference.jws_parse
           Reference.claims_decode demo_env (demo_request (bearer ghost_token) "" "" "")
           demo_store ghost_token ghost_claims).
  - vm_compute. reflexivity.
  - vm_compute. discriminate.
  - exact Hv.
  - eexists _, _. split; [reflexivity|]. split; [reflexivity|].
    intros u [<-|[<-|[<-|[]]]]; discriminate.
Defined.

Lemma stored_password_is_hash_witness :
  (status (fst (ref_register demo_env
                  (demo_request None "" "new@example.com" "hunter2") demo_store)) = 201 /\
   exists row,
     user_rows (snd (ref_register demo_env
                       (demo_request None "" "new@example.com" "hunter2") demo_store))
     = (user_rows demo_store ++ [row])%list /\
     body_field "userId"
       (fst (ref_register demo_env
               (demo_request None "" "new@example.com" "hunter2") demo_store))
     = Some (JNum (u_id row)) /\
     u_username row = "newuser" /\
     u_email row = "new@example.com" /\
     u_password row = Reference.bcrypt_hash "hunter2" 10 "salt-r" /\
     u_password row <> "hunter2" /\
     Reference.bcrypt_compare "hunter2" (u_password row) = true) /\
  (In john (user_rows (ref_store_after healthy_env None)) /\
   exists mu salt,
     In mu mockUsers /\
     u_username john = mu_username mu /\
     u_email john = mu_email mu /\
     u_password john = Reference.bcrypt_hash (mu_password mu) 10 salt /\
     u_password john <> mu_password mu /\
     Reference.bcrypt_compare (mu_password mu) (u_password john) = true).
Proof.
  destruct (stored_password_is_hash Reference.collate_eq Reference.bcrypt_hash
              Reference.bcrypt_compare reference_compare_hash reference_hash_opaque)
    as [Hreg Hseed].
  split.
  - split; [reflexivity|].
    apply (Hreg demo_env (demo_request None "" "new@example.com" "hunter2") demo_store).
    reflexivity.
  - assert (Hin : In john (user_rows (ref_store_after healthy_env None)))
      by (vm_compute; left; reflexivity).
    split; [exact Hin|].
    apply (Hseed healthy_env None john Hin). intros [].
Defined.

Lemma healthy_env_healthy : healthy healthy_env.
Proof. split; [reflexivity|intros n; reflexivity]. Qed.

Lemma bootstrap_idempotent_and_gated_witness :
  (settled (ref_createTables healthy_env None) = Ok tt /\
   settled (ref_createTables healthy_env (ref_store_after healthy_env None)) = Ok tt /\
   ref_store_after healthy_env (ref_store_after healthy_env None)
   = ref_store_after healthy_env None) /\
  (user_rows posts_deleted_store <> [] /\ post_rows posts_deleted_store = [] /\
   settled (ref_createTables healthy_env posts_deleted_store) = Ok tt /\
   user_rows (ref_store_after healthy_env posts_deleted_store)
   = user_rows posts_deleted_store /\
   List.map (fun p => (p_title p, p_content p, p_user_id p))
     (post_rows (ref_store_after healthy_env posts_deleted_store))
   = List.map (fun m => (mp_title m, mp_content m, mp_user_id m)) mockPosts).
Proof.
  destruct (bootstrap_idempotent_and_gated Reference.collate_eq Reference.bcrypt_hash)
    as [Hidem Hgate].
  split.
  - assert (Hok : settled (ref_createTables healthy_env None) = Ok tt)
      by (vm_compute; reflexivity).
    split; [exact Hok|].
    apply (Hidem healthy_env healthy_env None Hok healthy_env_healthy).
  - split; [discriminate|]. split; [reflexivity|].
    apply (Hgate healthy_env posts_deleted_store healthy_env_healthy).
    + discriminate.
    + reflexivity.
    + exists john. split; [left; reflexivity|reflexivity].
    + exists jane. split; [right; left; reflexivity|reflexivity].
Defined.

(** On a store whose accounts are not empty and whose posts are empty,
    but whose accounts do not include the owners the seed posts name,
    the bootstrap rejects on the first seed post and no post is
    seeded. *)
Lemma posts_not_seeded_without_owners :
  user_rows orphaned_store <> [] /\
  post_rows orphaned_store = [] /\
  settled (ref_createTables healthy_env orphaned_store) = Err ER_NO_REFERENCED_ROW_2 /\
  post_rows (ref_store_after healthy_env orphaned_store) = [].
Proof.
  split; [discriminate|]. split; [reflexivity|].
  split; vm_compute; reflexivity.
Qed.

Lemma bootstrap_failure_policy_witness :
  exists c,
    conn (ref_createTables failing_env None) = Some c /\
    conn_log c !! 5%nat
    = Some (INSERT_users "johndoe" "john@example.com" "$2b$password123$s0",
            Some PROTOCOL_CONNECTION_LOST) /\
    length (conn_log c) = 6%nat /\
    settled (ref_createTables failing_env None) = Err PROTOCOL_CONNECTION_LOST /\
    ref_server_start failing_env None = Crashed PROTOCOL_CONNECTION_LOST /\
    conn_ended c = true.
Proof.
  destruct (bootstrap_failure_policy Reference.collate_eq Reference.bcrypt_hash
              failing_env None) as (Hlast & Hfatal & Hend & _).
  destruct (conn (ref_createTables failing_env None)) as [c|] eqn:Hc;
    [|vm_compute in Hc; discriminate].
  exists c.
  assert (Hi : conn_log c !! 5%nat
               = Some (INSERT_users "johndoe" "john@example.com" "$2b$password123$s0",
                       Some PROTOCOL_CONNECTION_LOST)).
  { vm_compute in Hc. injection Hc as <-. reflexivity. }
  destruct (Hlast c _ _ _ Hc Hi) as [Hlen Hset].
  split; [reflexivity|]. split; [exact Hi|]. split; [exact Hlen|].
  split; [exact Hset|]. split; [apply (Hfatal _ Hset)|apply (Hend c Hc)].
Defined.


(** The scenario runs as the spec describes it: 201 with the new id,
    200 with the profile, 201 with the id of the post, and 404 for the
    update by another account. *)
Example scenario_responses :
  scenario
  = [ mk_response 201 (JObj [("message", JStr "User created"); ("userId", JNum 3)]);
      mk_response 200
        (JObj [("id", JNum 3); ("username", JStr "a"); ("email", JStr "a@x.com")]);
      mk_response 201 (JObj [("message", JStr "Post created"); ("postId", JNum 6)]);
      mk_response 404 (JObj [("error", JStr "Post not found or unauthorized")]) ].
Proof. vm_compute. reflexivity. Qed.

(** A header with a third piece still has a credential part: the
    second piece is verified and the rest is ignored. *)
Example third_piece_ignored :
  ref_authMiddleware demo_env (demo_request (Some ("Bearer " ++ janes_token ++ " x")) "1" "" "")
  = Next janes_claims /\
  ref_authMiddleware demo_env (demo_request (Some "Bearer abc def") "1" "" "")
  = Reject (mk_response 401 (JObj [("error", JStr "Invalid token")])).
Proof. split; vm_compute; reflexivity. Qed.

(** ** Concrete runs of the remaining routes and of route sequences *)

Definition ref_get_posts : env -> request -> store -> (response + list json) * store :=
  router_get_posts JNum.
Definition ref_get_post : handler :=
  router_get_post Reference.int_eq_text JNum.
Definition ref_restarts : list boot_env -> store -> store :=
  restarts Reference.collate_eq Reference.bcrypt_hash.

Definition johns_claims : payload := mk_payload 1 "john@example.com" 2000 (2000 + 24 * 60 * 60).
Definition johns_token : string := ref_sign (mk_claims 1 "john@example.com") secret expiresIn_24h 2000.

Definition janes_post : post_row :=
  mk_post 2 "MySQL Best Practices" "Use prepared statements." 2 1500.

(** John's post, written at 1000, is stored before Jane's, written at
    1500. *)
Definition two_posts : table post_row := mk_table [johns_post; janes_post] 3.
Definition two_posts_database : database :=
  mk_database (Some (mk_table [john; jane; legacy] 4)) (Some two_posts).
Definition two_posts_store : store := Some two_posts_database.

(** The tables of [demo_store]. *)
Definition demo_users : table user_row := mk_table [john; jane; legacy] 4.
Definition demo_posts : table post_row := mk_table [johns_post] 2.
Definition demo_database : database := mk_database (Some demo_users) (Some demo_posts).

Lemma demo_store_primary_keys : primary_keys demo_store.
Proof.
  split; split.
  - repeat constructor; simpl; intuition discriminate.
  - repeat constructor.
  - repeat constructor; simpl; intuition discriminate.
  - repeat constructor.
Qed.

Lemma johns_token_accepted id title content :
  ref_authMiddleware demo_env (mk_request (bearer johns_token) id "" "" "" title content)
  = Next johns_claims.
Proof. vm_compute. reflexivity. Qed.

Lemma janes_token_accepted id title content :
  ref_authMiddleware demo_env (mk_request (bearer janes_token) id "" "" "" title content)
  = Next janes_claims.
Proof. vm_compute. reflexivity. Qed.


Lemma get_posts_newest_first_witness :
  exists sent,
    ref_get_posts demo_env (demo_request None "" "" "") two_posts_store
    = (inr (List.map (post_json JNum) sent), two_posts_store) /\
    Permutation sent [johns_post; janes_post] /\
    StronglySorted (fun p q => p_created_at q <= p_created_at p) sent.
Proof.
  exact (get_posts_newest_first JNum demo_env (demo_request None "" "" "")
           two_posts_database two_posts eq_refl).
Defined.

Lemma get_post_found_or_404_witness :
  ref_get_post demo_env (demo_request None "7" "" "") demo_store
  = (mk_response 404 (JObj [("error", JStr "Post not found")]), demo_store) /\
  ref_get_post demo_env (demo_request None "1" "" "") demo_store
  = (mk_response 200 (post_json JNum johns_post), demo_store).
Proof.
  split.
  - apply (proj1 (get_post_found_or_404 Reference.int_eq_text JNum demo_env
                    (demo_request None "7" "" "") demo_database demo_posts eq_refl)).
    intros p [<-|[]]. reflexivity.
  - apply (proj1 (proj2 (get_post_found_or_404 Reference.int_eq_text JNum demo_env
                           (demo_request None "1" "" "") demo_database demo_posts eq_refl)) [] johns_post []).
    + reflexivity.
    + reflexivity.
    + intros q [].
Defined.

Lemma primary_keys_kept_witness :
  primary_keys (snd (ref_register demo_env (demo_request None "" "a@x.com" "p1") demo_store)) /\
  primary_keys
    (snd (ref_delete demo_env (mk_request (bearer johns_token) "1" "" "" "" "" "") demo_store)) /\
  primary_keys (ref_store_after failing_env demo_store).
Proof.
  pose proof (primary_keys_kept Reference.collate_eq Reference.int_eq_text
                Reference.bcrypt_hash Reference.bcrypt_compare Reference.mac
                Reference.jws_compact Reference.jws_parse Reference.claims_encode
                Reference.claims_decode JNum) as [Hroutes Hboot].
  split; [|split].
  - apply (Hroutes demo_env (demo_request None "" "a@x.com" "p1") demo_store).
    apply demo_store_primary_keys.
  - apply (Hroutes demo_env (mk_request (bearer johns_token) "1" "" "" "" "" "") demo_store).
    apply demo_store_primary_keys.
  - apply (Hboot failing_env demo_store). apply demo_store_primary_keys.
Defined.

Lemma demo_store_references : references_hold demo_store.
Proof.
  intros p [<-|[]]. exists john. split; [left; reflexivity|reflexivity].
Qed.

Lemma references_kept_witness :
  references_hold
    (snd (ref_post demo_env (mk_request (bearer ghost_token) "" "" "" "" "t" "c") demo_store)) /\
  references_hold
    (snd (ref_post demo_env (mk_request (bearer janes_token) "" "" "" "" "t" "c") demo_store)) /\
  references_hold (ref_store_after healthy_env demo_store).
Proof.
  pose proof (references_kept Reference.collate_eq Reference.int_eq_text
                Reference.bcrypt_hash Reference.bcrypt_compare Reference.mac
                Reference.jws_compact Reference.jws_parse Reference.claims_encode
                Reference.claims_decode JNum) as [Hroutes Hboot].
  split; [|split].
  - apply (Hroutes demo_env (mk_request (bearer ghost_token) "" "" "" "" "t" "c") demo_store).
    apply demo_store_references.
  - apply (Hroutes demo_env (mk_request (bearer janes_token) "" "" "" "" "t" "c") demo_store).
    apply demo_store_references.
  - apply (Hboot healthy_env demo_store). apply demo_store_references.
Defined.

Lemma demo_store_unique_accounts : unique_accounts Reference.collate_eq demo_store.
Proof.
  unfold unique_accounts. simpl.
  repeat constructor.
Qed.

Lemma unique_accounts_kept_witness :
  unique_accounts Reference.collate_eq
    (snd (ref_register demo_env (demo_request None "" "john@example.com" "p1") demo_store)) /\
  unique_accounts Reference.collate_eq
    (snd (ref_register demo_env (demo_request None "" "a@x.com" "p1") demo_store)).
Proof.
  pose proof (unique_accounts_kept Reference.collate_eq Reference.int_eq_text
                Reference.bcrypt_hash Reference.bcrypt_compare Reference.mac
                Reference.jws_compact Reference.jws_parse Reference.claims_encode
                Reference.claims_decode JNum) as [Hroutes _].
  split.
  - apply (Hroutes demo_env (demo_request None "" "john@example.com" "p1") demo_store).
    apply demo_store_unique_accounts.
  - apply (Hroutes demo_env (demo_request None "" "a@x.com" "p1") demo_store).
    apply demo_store_unique_accounts.
Defined.


Lemma create_then_get_witness :
  ref_get_post late_env (demo_request None "2" "" "")
    (snd (ref_post demo_env (mk_request (bearer janes_token) "" "" "" "" "t" "c") demo_store))
  = (mk_response 200 (post_json JNum (mk_post 2 "t" "c" 2 2000)),
     snd (ref_post demo_env (mk_request (bearer janes_token) "" "" "" "" "t" "c") demo_store)).
Proof.
  apply (create_then_get Reference.int_eq_text Reference.mac Reference.jws_parse
           Reference.claims_decode JNum demo_env late_env
           (mk_request (bearer janes_token) "" "" "" "" "t" "c")
           (demo_request None "2" "" "") demo_store janes_claims 2).
  - apply demo_store_primary_keys.
  - apply janes_token_accepted.
  - vm_compute. reflexivity.
  - intros p Hp. vm_compute in Hp. destruct Hp as [<-|[<-|[]]]; vm_compute; split; congruence.
Defined.


Lemma delete_by_owner_witness :
  fst (ref_delete demo_env (mk_request (bearer johns_token) "1" "" "" "" "" "") demo_store)
  = mk_response 200 (JObj [("message", JStr "Post deleted")]) /\
  ~ In johns_post
      (post_rows
         (snd (ref_delete demo_env (mk_request (bearer johns_token) "1" "" "" "" "" "")
                 demo_store))).
Proof.
  destruct (delete_by_owner Reference.int_eq_text Reference.mac Reference.jws_parse
              Reference.claims_decode demo_env
              (mk_request (bearer johns_token) "1" "" "" "" "" "") demo_store
              johns_claims johns_post (johns_token_accepted "1" "" "")
              (or_introl eq_refl) eq_refl eq_refl) as (H200 & Hgone & _).
  split; [exact H200|exact Hgone].
Defined.



Lemma other_posts_untouched_witness :
  In johns_post
    (post_rows
       (snd (ref_put demo_env (mk_request (bearer janes_token) "1" "" "" "" "t2" "c2")
               demo_store))) /\
  In johns_post
    (post_rows
       (snd (ref_delete demo_env (mk_request (bearer janes_token) "1" "" "" "" "t2" "c2")
               demo_store))).
Proof.
  apply (proj1 (other_posts_untouched Reference.int_eq_text Reference.mac Reference.jws_parse
                  Reference.claims_decode demo_env
                  (mk_request (bearer janes_token) "1" "" "" "" "t2" "c2") demo_store)
           johns_post (or_introl eq_refl)).
  intros user Huser. rewrite janes_token_accepted in Huser.
  injection Huser as <-. discriminate.
Defined.

Lemma rejected_requests_change_nothing_witness :
  ref_profile demo_env (demo_request None "1" "" "") demo_store
  = (mk_response 401 (JObj [("error", JStr "No token provided")]), demo_store) /\
  ref_post demo_env (demo_request None "1" "" "") demo_store
  = (mk_response 401 (JObj [("error", JStr "No token provided")]), demo_store) /\
  ref_put demo_env (demo_request None "1" "" "") demo_store
  = (mk_response 401 (JObj [("error", JStr "No token provided")]), demo_store) /\
  ref_delete demo_env (demo_request None "1" "" "") demo_store
  = (mk_response 401 (JObj [("error", JStr "No token provided")]), demo_store).
Proof.
  exact (proj2 (rejected_requests_change_nothing Reference.int_eq_text Reference.mac
                  Reference.jws_parse Reference.claims_decode demo_env
                  (demo_request None "1" "" "")
                  (mk_response 401 (JObj [("error", JStr "No token provided")])) eq_refl)
           demo_store).
Defined.


Lemma reference_collate_refl (s : string) : Reference.collate_eq s s = true.
Proof. apply String.eqb_refl. Qed.

Lemma register_then_login_witness :
  exists id token,
    body_field "userId"
      (fst (ref_register demo_env (demo_request None "" "a@x.com" "p1") demo_store))
    = Some (JNum id) /\
    fst (ref_login late_env (demo_request None "" "a@x.com" "p1")
           (snd (ref_register demo_env (demo_request None "" "a@x.com" "p1") demo_store)))
    = mk_response 200
        (JObj [("token", JStr token);
               ("user", JObj [("id", JNum id); ("username", JStr "newuser");
                              ("email", JStr "a@x.com")])]) /\
    ref_decode token
    = Some (mk_payload id "a@x.com" (now late_env) (now late_env + 24 * 60 * 60)).
Proof.
  apply (register_then_login Reference.collate_eq Reference.bcrypt_hash
           Reference.bcrypt_compare Reference.mac Reference.jws_compact
           Reference.jws_parse Reference.claims_encode Reference.claims_decode
           reference_parse_compact reference_decode_encode reference_compare_hash
           reference_collate_refl demo_env late_env
           (demo_request None "" "a@x.com" "p1") (demo_request None "" "a@x.com" "p1")
           demo_store).
  - vm_compute. reflexivity.
  - reflexivity.
  - reflexivity.
Defined.

Lemma janes_token_plain : occurs space janes_token = false /\ janes_token <> EmptyString.
Proof.
  split; [vm_compute; reflexivity|].
  intros H. vm_compute in H. discriminate H.
Qed.

Lemma login_then_profile_witness :
  exists user rest,
    fst (select_user_by_email Reference.collate_eq "jane@example.com" demo_store)
    = Ok (user :: rest) /\
    Reference.bcrypt_compare "password456" (u_password user) = true /\
    ref_profile demo_env (demo_request (bearer janes_token) "" "" "") demo_store
    = (mk_response 200
         (JObj [("id", JNum (u_id user)); ("username", JStr (u_username user));
                ("email", JStr (u_email user))]),
       demo_store).
Proof.
  apply (login_then_profile Reference.collate_eq Reference.bcrypt_compare Reference.mac
           Reference.jws_compact Reference.jws_parse Reference.claims_encode
           Reference.claims_decode reference_parse_compact reference_decode_encode
           demo_env demo_env
           (demo_request None "" "jane@example.com" "password456")
           (demo_request (bearer janes_token) "" "" "") demo_store janes_token).
  - apply demo_store_primary_keys.
  - vm_compute. reflexivity.
  - reflexivity.
  - apply janes_token_plain.
  - apply janes_token_plain.
  - reflexivity.
  - reflexivity.
Defined.

Lemma authMiddleware_credential_only_witness :
  ref_authMiddleware demo_env (demo_request (Some "Bearer abc") "1" "" "")
  = ref_authMiddleware demo_env (demo_request (Some "Basic abc and more") "1" "" "").
Proof.
  apply (proj1 (authMiddleware_credential_only Reference.mac Reference.jws_parse
                  Reference.claims_decode demo_env
                  (demo_request (Some "Bearer abc") "1" "" "")
                  (demo_request (Some "Basic abc and more") "1" "" "")
                  "Bearer abc" "Basic abc and more" "abc" eq_refl eq_refl
                  (two_tokens "abc" "Bearer" eq_refl eq_refl ltac:(discriminate))
                  (more_tokens "abc" "Basic" "and more" eq_refl eq_refl
                     ltac:(discriminate)))).
Defined.

Lemma fresh_store_none : fresh_store None.
Proof.
  split; [reflexivity|]. split; [reflexivity|]. intros d t H. discriminate H.
Qed.

Lemma fresh_install_witness :
  ref_server_start healthy_env None = Listening (ref_store_after healthy_env None) /\
  user_rows (ref_store_after healthy_env None)
  = [ mk_user 1 "johndoe" "john@example.com" "$2b$password123$s0" 1000;
      mk_user 2 "janedoe" "jane@example.com" "$2b$password456$s1" 1000 ] /\
  List.map p_user_id (post_rows (ref_store_after healthy_env None)) = [1; 1; 2; 2; 1].
Proof.
  destruct (fresh_install Reference.collate_eq Reference.bcrypt_hash healthy_env None
              healthy_env_healthy fresh_store_none eq_refl eq_refl)
    as (_ & Hstart & Husers & Hposts & _).
  split; [exact Hstart|]. split; [exact Husers|].
  change (List.map p_user_id (post_rows (ref_store_after healthy_env None)))
    with (List.map snd
            (List.map (fun p => (p_title p, p_content p, p_user_id p))
               (post_rows (ref_store_after healthy_env None)))).
  unfold ref_store_after. rewrite Hposts. reflexivity.
Defined.

Lemma orphaned_store_seed_owner_missing : seed_owner_missing orphaned_store.
Proof.
  split; [discriminate|]. split; [reflexivity|].
  intros u [<-|[]]. discriminate.
Qed.

Lemma bootstrap_stuck_witness :
  ref_server_start healthy_env (ref_restarts [healthy_env; healthy_env] orphaned_store)
  = Crashed ER_NO_REFERENCED_ROW_2 /\
  user_rows (ref_restarts [healthy_env; healthy_env] orphaned_store) = [legacy] /\
  post_rows (ref_restarts [healthy_env; healthy_env] orphaned_store) = [].
Proof.
  apply (bootstrap_stuck Reference.collate_eq Reference.bcrypt_hash
           [healthy_env; healthy_env] healthy_env orphaned_store).
  - repeat constructor; apply healthy_env_healthy.
  - apply healthy_env_healthy.
  - apply orphaned_store_seed_owner_missing.
Defined.
